(** * rsoxs_scans.constructor: scan-plan construction

    A shallow embedding of [src/rsoxs_scans/constructor.py]:
    [get_nexafs_scan_params] (fly-scan zones and duration),
    [get_energies] (energy list for a step scan) and
    [construct_exposure_times] (per-point exposure and time estimate).

    Numbers.  Python numbers are embedded as rationals [Q]: arithmetic on
    finite values is exact, so the binary64 rounding error of the
    interpreter is idealised away.  The non-finite values that numpy
    produces on a division by zero (inf, nan) are kept, in [pyfloat],
    because the control flow of [get_energies] depends on them; the two
    zeros are identified.  Python's own division raises
    [ZeroDivisionError] instead, and is modelled so. *)

From Stdlib Require Import QArith Qabs Qround ZArith List String Ascii Bool.
From Stdlib Require Import Lia Lqa DecimalString DecimalNat Morphisms Setoid.
From Stdlib Require Import Sorted.
Import ListNotations.

Local Open Scope Q_scope.

(** ** Exceptions and results *)

(** The exceptions the module raises, with the fixed part of the message. *)
Inductive exn : Type :=
| TypeError (msg : string)
| ValueError (msg : string)
| KeyError
| IndexError
| ZeroDivisionError
| OverflowError.

Inductive result (A : Type) : Type :=
| Ok (a : A)
| Raise (e : exn).

Arguments Ok {A} a.
Arguments Raise {A} e.

Definition bind {A B : Type} (r : result A) (k : A -> result B) : result B :=
  match r with
  | Ok a => k a
  | Raise e => Raise e
  end.

Notation "x <- r ;; k" := (bind r (fun x => k))
  (at level 61, r at next level, right associativity).
Notation "' p <- r ;; k" := (bind r (fun x => match x with p => k end))
  (at level 61, p pattern, r at next level, right associativity).

(** The messages of the [raise] statements of the module. *)
Definition msg_invalid_edge : string := "invalid edge - no key of that name was found".
Definition msg_invalid_speed : string := "NEXAFS scan speed was not found or is not a valid number".
Definition msg_invalid_frames : string := "frame number was not found or is not a valid number".
Definition msg_invalid_ratios : string := "invalid ratios".
Definition msg_invalid_intervals : string := "invalid intervals".
Definition msg_wrong_number : string := "got the wrong number of intervals".
Definition msg_ratio_value : string := "ratio value invalid".
Definition msg_no_len : string := "object has no len()".
Definition msg_repeats : string := "repeats must be a positive integer between 0 and 100".
Definition msg_energies : string := "Invalid list of energies".
Definition msg_invalid_test : string :=
  "Invalid test, only less_than, greater_than, and between are accepted".

(** ** Strings and dictionaries *)

(** [str.lower] on the ASCII letters. *)
Definition lower_ascii (c : ascii) : ascii :=
  let n := nat_of_ascii c in
  if ((65 <=? n) && (n <=? 90))%nat then ascii_of_nat (n + 32) else c.

Fixpoint lower (s : string) : string :=
  match s with
  | EmptyString => EmptyString
  | String c s' => String (lower_ascii c) (lower s')
  end.

(** [str(n)] for a length. *)
Definition str_of_nat (n : nat) : string :=
  NilEmpty.string_of_uint (Nat.to_uint n).

(** A dict literal with string keys, in source order. *)
Definition dict (V : Type) : Type := list (string * V).

Fixpoint dict_get {V : Type} (d : dict V) (k : string) : option V :=
  match d with
  | [] => None
  | (k', v) :: d' => if String.eqb k k' then Some v else dict_get d' k
  end.

Definition dict_mem {V : Type} (d : dict V) (k : string) : bool :=
  match dict_get d k with
  | Some _ => true
  | None => false
  end.

(** [d[k]], which raises [KeyError] on a missing key. *)
Definition dict_item {V : Type} (d : dict V) (k : string) : result V :=
  match dict_get d k with
  | Some v => Ok v
  | None => Raise KeyError
  end.

(** [l[i]] on a tuple or list, for an index that is not negative. *)
Definition index {A : Type} (l : list A) (i : nat) : result A :=
  match nth_error l i with
  | Some a => Ok a
  | None => Raise IndexError
  end.

(** ** Arguments *)

(** [edge]: a table key, a bare number, or a tuple or list of thresholds. *)
Inductive edge_arg : Type :=
| EdgeStr (s : string)
| EdgeNum (v : Q)
| EdgeSeq (l : list Q).

(** [speed]: a table key or a number. *)
Inductive speed_arg : Type :=
| SpeedStr (s : string)
| SpeedNum (v : Q).

(** [frames]: a table key, a number, or the float nan. *)
Inductive frames_arg : Type :=
| FramesStr (s : string)
| FramesNum (v : Q)
| FramesNaN.

(** [ratios]: [None], a string (a table key, or the empty string), a bare
    number, or a tuple or list of weights. *)
Inductive ratios_arg : Type :=
| RatiosNone
| RatiosStr (s : string)
| RatiosNum (v : Q)
| RatiosSeq (l : list Q).

(** An optional argument, [None] when the call leaves it out. *)
Definition or_default {A : Type} (arg : option A) (default : A) : A :=
  match arg with
  | Some a => a
  | None => default
  end.

(** ** Comparisons on rationals *)

Definition Qltb (a b : Q) : bool :=
  match a ?= b with
  | Lt => true
  | _ => false
  end.

(** ** Lookup tables shared by both planners *)

Definition edge_names : dict string :=
  [ ("c", "Carbon"); ("carbonk", "Carbon"); ("ck", "Carbon");
    ("n", "Nitrogen"); ("nitrogenk", "Nitrogen"); ("nk", "Nitrogen");
    ("f", "Fluorine"); ("fluorinek", "Fluorine"); ("fk", "Fluorine");
    ("o", "Oxygen"); ("oxygenk", "Oxygen"); ("ok", "Oxygen");
    ("ca", "Calcium"); ("calciumk", "Calcium"); ("cak", "Calcium") ]%string.

(** Lines 73-80 and 198-205: the alias lookup on a string [edge].  Returns
    the pair [(edge, edge_input)]. *)
Definition lookup_edge (edges : dict (list Q)) (edge : edge_arg)
  : edge_arg * edge_arg :=
  match edge with
  | EdgeStr s =>
      let '(name, edge_input) :=
        match dict_get edge_names (lower s) with
        | Some canonical => (canonical, lower canonical)
        | None => (s, s)
        end in
      match dict_get edges (lower name) with
      | Some thresholds => (EdgeSeq thresholds, EdgeStr edge_input)
      | None => (EdgeStr name, EdgeStr edge_input)
      end
  | _ => (edge, edge)
  end.

(** [str(edge_input).lower()] as a candidate table key.  The text of a
    number or of a tuple starts with a digit, a sign or a bracket, and is
    the key of no table of this module. *)
Definition edge_key (edge_input : edge_arg) : option string :=
  match edge_input with
  | EdgeStr s => Some (lower s)
  | _ => None
  end.

(** Lines 88-94 and 220-226: the weights when [ratios] is [None] or
    empty. *)
Definition default_ratios (table : dict (list Q)) (edge_input : edge_arg)
    (edge : list Q) : list Q :=
  let by_name :=
    match edge_key edge_input with
    | Some k => dict_get table k
    | None => None
    end in
  match by_name with
  | Some r => r
  | None =>
      match dict_get table ("default " ++ str_of_nat (List.length edge))%string with
      | Some r => r
      | None => repeat 1 (List.length edge - 1)
      end
  end.

(** ** Floating-point values of numpy *)

(** A float: a finite value, an infinity or nan. *)
Inductive pyfloat : Type :=
| Fin (q : Q)
| PInf
| NInf
| NaN.

(** [a / b] on numpy scalars: a zero divisor gives an infinity or nan (and
    a warning), never an exception. *)
Definition np_div (a b : pyfloat) : pyfloat :=
  match a, b with
  | NaN, _ | _, NaN => NaN
  | Fin x, Fin y =>
      match y ?= 0 with
      | Eq => match x ?= 0 with Eq => NaN | Gt => PInf | Lt => NInf end
      | _ => Fin (x / y)
      end
  | Fin _, (PInf | NInf) => Fin 0
  | PInf, Fin y => match y ?= 0 with Lt => NInf | _ => PInf end
  | NInf, Fin y => match y ?= 0 with Lt => PInf | _ => NInf end
  | (PInf | NInf), (PInf | NInf) => NaN
  end.

Definition np_mul (a b : pyfloat) : pyfloat :=
  match a, b with
  | NaN, _ | _, NaN => NaN
  | Fin x, Fin y => Fin (x * y)
  | Fin x, PInf | PInf, Fin x =>
      match x ?= 0 with Eq => NaN | Gt => PInf | Lt => NInf end
  | Fin x, NInf | NInf, Fin x =>
      match x ?= 0 with Eq => NaN | Gt => NInf | Lt => PInf end
  | PInf, PInf | NInf, NInf => PInf
  | PInf, NInf | NInf, PInf => NInf
  end.

Definition np_add (a b : pyfloat) : pyfloat :=
  match a, b with
  | NaN, _ | _, NaN => NaN
  | Fin x, Fin y => Fin (x + y)
  | PInf, NInf | NInf, PInf => NaN
  | PInf, _ | _, PInf => PInf
  | NInf, _ | _, NInf => NInf
  end.

(** [a < b]; false as soon as one side is nan. *)
Definition np_lt (a b : pyfloat) : bool :=
  match a, b with
  | NaN, _ | _, NaN => false
  | Fin x, Fin y => Qltb x y
  | NInf, (Fin _ | PInf) => true
  | Fin _, PInf => true
  | _, _ => false
  end.

(** The builtin [max(a, b)]: [b] when [b > a], else [a]. *)
Definition py_max (a b : pyfloat) : pyfloat :=
  if np_lt a b then b else a.

(** Rounding to the nearest integer, halves to the even one. *)
Definition rint (q : Q) : Z :=
  let f := Qfloor q in
  match Qcompare (q - inject_Z f) (1 # 2) with
  | Lt => f
  | Gt => (f + 1)%Z
  | Eq => if Z.even f then f else (f + 1)%Z
  end.

(** [np.round(x)]. *)
Definition np_round (x : pyfloat) : pyfloat :=
  match x with
  | Fin q => Fin (inject_Z (rint q))
  | _ => x
  end.

(** [int(x)] on a float: truncation; an infinity or nan raises. *)
Definition py_int (x : pyfloat) : result Z :=
  match x with
  | Fin q => Ok (Z.quot (Qnum q) (Zpos (Qden q)))
  | PInf | NInf => Raise OverflowError
  | NaN => Raise (ValueError "cannot convert float NaN to integer")
  end.

(** [np.around(x, 1)]: scale by ten, round, scale back. *)
Definition np_around1 (x : Q) : Q :=
  inject_Z (rint (x * 10)) / 10.

(** [y[-1] = v]. *)
Fixpoint set_last (l : list Q) (v : Q) : list Q :=
  match l with
  | [] => []
  | [_] => [v]
  | x :: l' => x :: set_last l' v
  end.

(** [np.linspace(start, stop, num, endpoint=endpoint)] for [num >= 0]:
    [arange(0, num) * step + start], the last point set to [stop] when the
    end point is included. *)
Definition linspace (start stop : Q) (num : Z) (endpoint : bool) : list Q :=
  let div := if endpoint then (num - 1)%Z else num in
  let delta := stop - start in
  let step := if (0 <? div)%Z then delta / inject_Z div else delta in
  let y :=
    map (fun k => inject_Z (Z.of_nat k) * step + start)
        (seq 0 (Z.to_nat num)) in
  if endpoint && (1 <? num)%Z then set_last y stop else y.

(** [a[i] = v] on an array. *)
Fixpoint setitem {A : Type} (a : list A) (i : nat) (v : A) : result (list A) :=
  match a, i with
  | [], _ => Raise IndexError
  | _ :: a', O => Ok (v :: a')
  | x :: a', S i' => a'' <- setitem a' i' v ;; Ok (x :: a'')
  end.

(** The builtin [sum] on an array of floats. *)
Definition py_sum (a : list pyfloat) : pyfloat :=
  fold_left np_add a (Fin 0).

(** ** get_nexafs_scan_params *)

Module Nexafs.

Definition edges : dict (list Q) :=
  [ ("carbon", [250; 282; 297; 350]);
    ("oxygen", [500; 525; 540; 560]);
    ("fluorine", [650; 680; 700; 740]);
    ("aluminium", [1500; 1560; 1580; 1600]);
    ("nitrogen", [370; 397; 407; 440]);
    ("zincl", [1000; 1015; 1035; 1085]);
    ("sulfurl", [150; 160; 170; 200]);
    ("calcium", [320; 345; 355; 380]) ]%string.

Definition ratios_table : dict (list Q) :=
  [ ("default 4", [5; 1; 5]);
    ("default 5", [5; 1; 2; 5]);
    ("default 6", [5; 2; 1; 2; 5]);
    ("default 2", [1]);
    ("default 3", [5; 1]) ]%string.

Definition speed_table : dict Q :=
  [ ("normal", 0.2); ("", 0.2); ("quick", 0.4); ("fast", 0.5);
    ("very fast", 1); ("slow", 0.1); ("very slow", 0.05) ]%string.

End Nexafs.

(** A zone of a fly scan: start, end and rate. *)
Definition zone : Type := (Q * Q * Q)%type.

(** Python's [/] on two numbers. *)
Definition py_div (a b : Q) : result Q :=
  if Qeq_bool b 0 then Raise ZeroDivisionError else Ok (a / b).

(** Lines 73-82: the thresholds, and [edge_input]. *)
Definition nexafs_edge (edge : edge_arg) : result (list Q * edge_arg) :=
  let '(edge, edge_input) := lookup_edge Nexafs.edges edge in
  match edge with
  | EdgeSeq l => Ok (l, edge_input)
  | _ => Raise (TypeError msg_invalid_edge)
  end.

(** Lines 83-87. *)
Definition resolve_speed (speed : speed_arg) : result Q :=
  let speed :=
    match speed with
    | SpeedStr s =>
        match dict_get Nexafs.speed_table (lower s) with
        | Some v => SpeedNum v
        | None => speed
        end
    | _ => speed
    end in
  match speed with
  | SpeedNum v => Ok v
  | SpeedStr _ => Raise (TypeError msg_invalid_speed)
  end.

(** Lines 88-99.  A key that is not in the table, a number among them,
    raises [KeyError] at the subscript. *)
Definition nexafs_ratios (ratios : ratios_arg) (edge_input : edge_arg)
    (edge : list Q) : result (list Q) :=
  match ratios with
  | RatiosNone | RatiosStr EmptyString =>
      Ok (default_ratios Nexafs.ratios_table edge_input edge)
  | RatiosSeq l => Ok l
  | RatiosStr s => dict_item Nexafs.ratios_table s
  | RatiosNum _ => Raise KeyError
  end.

(** Lines 105-107: the loop over [enumerate(ratios)], from index [i]. *)
Fixpoint nexafs_loop (edge : list Q) (speed : Q) (i : nat) (ratios : list Q)
    (scan_params : list zone) (time : Q) : result (list zone * Q) :=
  match ratios with
  | [] => Ok (scan_params, time)
  | ratio :: rest =>
      e0 <- index edge i ;;
      e1 <- index edge (S i) ;;
      d <- py_div (Qabs (e1 - e0)) (ratio * speed) ;;
      nexafs_loop edge speed (S i) rest
        (scan_params ++ [(e0, e1, ratio * speed)]) (time + d)
  end.

(** ** get_energies *)

Module Energies.

Definition edges : dict (list Q) :=
  [ ("carbon", [250; 270; 282; 287; 292; 305; 350]);
    ("oxygen", [510; 525; 540; 560]);
    ("fluorine", [670; 680; 690; 700; 740]);
    ("aluminium", [1540; 1560; 1580; 1600]);
    ("nitrogen", [380; 397; 407; 440]);
    ("zincl", [1000; 1015; 1035; 1085]);
    ("sulfurl", [150; 160; 170; 200]);
    ("calcium", [320; 340; 345; 349; 349.5; 352.5; 353; 355; 360; 380])
  ]%string.

Definition intervals_table : dict (list Q) :=
  [ ("carbon", [5; 1; 0.1; 0.2; 1; 5]);
    ("carbon nonaromatic", [5; 1; 0.2; 0.1; 1; 5]);
    ("default 4", [2; 0.2; 2]);
    ("default 5", [2; 0.2; 0.6; 2]);
    ("default 6", [2; 0.6; 0.2; 0.6; 2]);
    ("default 2", [2]);
    ("default 3", [2; 0.2]);
    ("calcium", [5; 1; 0.5; 0.1; 0.25; 0.1; 0.5; 1; 5]) ]%string.

Definition frames_table : dict Q :=
  [ ("full", 112); ("", 112); ("short", 56); ("very short", 40) ]%string.

End Energies.

(** Lines 198-210: the thresholds, [edge_input] and [singleinput]. *)
Definition energies_edge (edge : edge_arg)
  : result (list Q * edge_arg * bool) :=
  let '(edge, edge_input) := lookup_edge Energies.edges edge in
  let '(edge, singleinput) :=
    match edge_input with
    | EdgeNum v => (EdgeSeq [v; v], true)
    | _ => (edge, false)
    end in
  match edge with
  | EdgeSeq l => Ok (l, edge_input, singleinput)
  | _ => Raise (TypeError msg_invalid_edge)
  end.

(** Lines 211-218. *)
Definition resolve_frames (frames : frames_arg) : result Q :=
  let frames :=
    match frames with
    | FramesNaN => FramesStr "full"
    | _ => frames
    end in
  let frames :=
    match frames with
    | FramesStr s =>
        match dict_get Energies.frames_table (lower s) with
        | Some v => FramesNum v
        | None => frames
        end
    | _ => frames
    end in
  match frames with
  | FramesNum v => Ok v
  | _ => Raise (TypeError msg_invalid_frames)
  end.

(** Lines 220-231, and [len(ratios)] of line 232, which raises
    [TypeError] on a bare number. *)
Definition energies_ratios (ratios : ratios_arg) (edge_input : edge_arg)
    (edge : list Q) : result (list Q) :=
  match ratios with
  | RatiosNone | RatiosStr EmptyString =>
      Ok (default_ratios Energies.intervals_table edge_input edge)
  | RatiosSeq l => Ok l
  | RatiosStr s => dict_item Energies.intervals_table s
  | RatiosNum _ => Raise (TypeError msg_no_len)
  end.

(** [np.zeros_like(ratios)].  The counts are kept as floats; for a tuple
    of integers numpy allocates integers, which hold the same finite
    counts. *)
Definition zeros_like (ratios : list Q) : list pyfloat :=
  map (fun _ => Fin 0) ratios.

(** Lines 237-238: the first loop, from index [i]. *)
Fixpoint numpnts_loop (edge : list Q) (multiple : Q) (i : nat)
    (ratios : list Q) (numpnts : list pyfloat) : result (list pyfloat) :=
  match ratios with
  | [] => Ok numpnts
  | interval :: rest =>
      e0 <- index edge i ;;
      e1 <- index edge (S i) ;;
      numpnts <- setitem numpnts i
        (np_round (np_div (Fin (Qabs (e1 - e0))) (Fin (interval * multiple)))) ;;
      numpnts_loop edge multiple (S i) rest numpnts
  end.

(** Lines 239-240: [multiple *= steps / frames].  The sum of an empty
    array is the integer 0, divided the Python way; otherwise [steps] is a
    numpy scalar. *)
Definition scale_multiple (ratios : list Q) (numpnts : list pyfloat)
    (frames : Q) : result pyfloat :=
  let steps := py_sum numpnts in
  quotient <- match ratios with
              | [] => q <- py_div 0 frames ;; Ok (Fin q)
              | _ => Ok (np_div steps (Fin frames))
              end ;;
  Ok (np_mul (Fin 1) quotient).

(** Line 248: the number of points of a zone. *)
Definition zone_numpnt (e0 e1 interval : Q) (multiple : pyfloat) : result Z :=
  n <- py_int (np_round (np_div (Fin (Qabs (e1 - e0)))
                           (py_max (Fin 0.01) (np_mul (Fin interval) multiple)))) ;;
  Ok (Z.max 1 n).

(** Line 250: the rounding of a point, [np.around(x * 2, 1) / 2]. *)
Definition round_point (x : Q) : Q := np_around1 (x * 2) / 2.

(** Line 249. *)
Definition is_at_end (i len_ratios : nat) (singleinput : bool) : bool :=
  (Z.of_nat i =? Z.of_nat len_ratios - 1)%Z && negb singleinput.

(** Lines 243-250: the second loop, from index [i]. *)
Fixpoint energies_loop (edge : list Q) (len_ratios : nat) (singleinput : bool)
    (multiple : pyfloat) (i : nat) (ratios : list Q) (energies : list Q)
  : result (list Q) :=
  match ratios with
  | [] => Ok energies
  | interval :: rest =>
      if Qltb interval 0.01 then Raise (ValueError msg_ratio_value)
      else if np_lt multiple (Fin 0.01) then Raise (ValueError msg_ratio_value)
      else
        e0 <- index edge i ;;
        e1 <- index edge (S i) ;;
        numpnt <- zone_numpnt e0 e1 interval multiple ;;
        let at_end := is_at_end i len_ratios singleinput in
        let num := (numpnt + (if at_end then 1 else 0))%Z in
        energies_loop edge len_ratios singleinput multiple (S i) rest
          (energies ++ map round_point (linspace e0 e1 num at_end))
  end.

(** Lines 234-240, then lines 241-250, on the resolved thresholds, frame
    number and weights. *)
Definition multiple_of (edge : list Q) (frames : Q) (ratios : list Q)
  : result pyfloat :=
  numpnts <- numpnts_loop edge 1 0 ratios (zeros_like ratios) ;;
  scale_multiple ratios numpnts frames.

Definition energies_of (edge : list Q) (singleinput : bool) (frames : Q)
    (ratios : list Q) : result (list Q) :=
  multiple <- multiple_of edge frames ratios ;;
  energies_loop edge (List.length ratios) singleinput multiple 0 ratios [].

(** ** construct_exposure_times *)

(** A test of an exposure list, such as [('between', 285, 288)]: the name
    is item 0, the thresholds are the items from 1 on. *)
Record test : Type := Test { test_name : string; test_args : list Q }.

(** [energies]: a numpy array of floats, or anything else. *)
Inductive energies_arg : Type :=
| NdArray (a : list Q)
| NotArray.

(** [exposure_time]: a string, a number, or a list
    [[default, test, value, test, value, ...]], kept as its item 0 and the
    pairs of [zip(exposure_time[1::2], exposure_time[2::2])]. *)
Inductive exposure_arg : Type :=
| ExposureStr (s : string)
| ExposureNum (v : Q)
| ExposureList (default : Q) (rules : list (test * Q)).

(** [times[mask] = value]. *)
Fixpoint mask_assign (times : list Q) (mask : list bool) (value : Q) : list Q :=
  match times, mask with
  | t :: times', m :: mask' =>
      (if m then value else t) :: mask_assign times' mask' value
  | _, _ => times
  end.

Definition name_in (name : string) (names : list string) : bool :=
  existsb (String.eqb name) names.

(** Lines 289-302: one round of the loop over the tests. *)
Definition apply_test (energies times : list Q) (t : test) (value : Q)
  : result (list Q) :=
  let name := test_name t in
  if name_in name ["less_than"; "less than"]%string then
    t1 <- index (test_args t) 0 ;;
    Ok (mask_assign times (map (fun e => Qltb e t1) energies) value)
  else if name_in name ["greater_than"; "greater than"]%string then
    t1 <- index (test_args t) 0 ;;
    Ok (mask_assign times (map (fun e => Qltb t1 e) energies) value)
  else if String.eqb name "between" then
    t1 <- index (test_args t) 0 ;;
    t2 <- index (test_args t) 1 ;;
    Ok (mask_assign times
          (map (fun e => Qltb t1 e && Qltb e t2) energies) value)
  else if String.eqb name "equals" then
    t1 <- index (test_args t) 0 ;;
    Ok (mask_assign times (map (fun e => Qeq_bool t1 e) energies) value)
  else Raise (ValueError msg_invalid_test).

(** Lines 288-302. *)
Fixpoint apply_tests (energies times : list Q) (rules : list (test * Q))
  : result (list Q) :=
  match rules with
  | [] => Ok times
  | (t, value) :: rest =>
      times <- apply_test energies times t value ;;
      apply_tests energies times rest
  end.

(** Lines 281-302: the exposure of every point. *)
Definition exposure_times (energies : list Q) (exposure_time : exposure_arg)
  : result (list Q) :=
  let times := energies in
  let exposure_time :=
    match exposure_time with
    | ExposureStr EmptyString => ExposureNum 1
    | _ => exposure_time
    end in
  match exposure_time with
  | ExposureNum v => Ok (map (fun _ => v) times)
  | ExposureList default rules =>
      apply_tests energies (map (fun _ => default) times) rules
  | ExposureStr _ => Ok times
  end.

(** The builtin [sum] on an array of numbers. *)
Definition sumQ (a : list Q) : Q := fold_left Qplus a 0.

Definition step_warning : string :=
  "WARNING: step will take more than 30 minutes".

Section Defaults.

(** [from .defaults import *]: the defaults module is not among the
    sources; its three constants are parameters. *)
Variable default_speed : speed_arg.
Variable default_frames : frames_arg.
Variable dafault_warning_step_time : Q.

Definition get_nexafs_scan_params (edge : edge_arg)
    (speed : option speed_arg) (ratios : ratios_arg)
  : result (list zone * Q) :=
  let speed := or_default speed default_speed in
  '(edge, edge_input) <- nexafs_edge edge ;;
  speed <- resolve_speed speed ;;
  ratios <- nexafs_ratios ratios edge_input edge ;;
  if negb (List.length ratios + 1 =? List.length edge)%nat
  then Raise (ValueError msg_wrong_number)
  else nexafs_loop edge speed 0 ratios [] 0.

Definition get_energies (edge : edge_arg) (frames : option frames_arg)
    (ratios : ratios_arg) : result (list Q) :=
  let frames := or_default frames default_frames in
  '(edge, edge_input, singleinput) <- energies_edge edge ;;
  frames <- resolve_frames frames ;;
  ratios <- energies_ratios ratios edge_input edge ;;
  if negb (List.length ratios + 1 =? List.length edge)%nat
  then Raise (ValueError msg_wrong_number)
  else energies_of edge singleinput frames ratios.

(** Returns [(times, time)] and the warnings emitted. *)
Definition construct_exposure_times (energies : energies_arg)
    (exposure_time : exposure_arg) (repeats : Z)
  : result (list Q * Q * list string) :=
  if ((1 >? repeats) || (100 <? repeats))%Z
  then Raise (ValueError msg_repeats)
  else
    match energies with
    | NotArray => Raise (ValueError msg_energies)
    | NdArray energies =>
        times <- exposure_times energies exposure_time ;;
        let calc_times := map (fun t => t * inject_Z repeats) times in
        let calc_times :=
          map (fun t => t + inject_Z (1 * (repeats - 1))) calc_times in
        let time :=
          sumQ calc_times + inject_Z (4 * Z.of_nat (List.length times)) in
        let warned :=
          if Qltb dafault_warning_step_time time then [step_warning] else [] in
        Ok (times, time, warned)
    end.

End Defaults.

(** ** The specification's formulas

    The closed forms the plans are compared with, written from the
    specification with explicit zone indices. *)

(** [E[i]], and the width [|E[i+1] - E[i]|] of zone [i]. *)
Definition threshold (E : list Q) (i : nat) : Q := nth i E 0.

Definition zone_width (E : list Q) (i : nat) : Q :=
  Qabs (threshold E (S i) - threshold E i).

(** Speed planner: the zones [(E[i], E[i+1], ratio[i] * s)] and the sum of
    the zone durations. *)
Definition spec_zones (E R : list Q) (s : Q) : list zone :=
  map (fun i => (threshold E i, threshold E (S i), nth i R 0 * s))
      (seq 0 (List.length R)).

Definition closed_form_duration (E R : list Q) (s : Q) : Q :=
  fold_right Qplus 0
    (map (fun i => zone_width E i / (nth i R 0 * s)) (seq 0 (List.length R))).

(** Energy generator, first pass: [count_i = round(|E[i+1]-E[i]| / R[i])]
    and their sum [S]. *)
Definition reference_count (E R : list Q) (i : nat) : Z :=
  rint (zone_width E i / nth i R 0).

Definition natural_total (E R : list Q) : Z :=
  fold_right Z.add 0%Z (map (reference_count E R) (seq 0 (List.length R))).

(** [scale = S / frame_target]. *)
Definition scale_factor (E R : list Q) (frame_target : Q) : Q :=
  inject_Z (natural_total E R) / frame_target.

Definition Qmax (a b : Q) : Q := if Qltb a b then b else a.

(** Second pass:
    [count_i = max(1, round(|E[i+1]-E[i]| / max(0.01, R[i] * scale)))]. *)
Definition zone_count (E R : list Q) (frame_target : Q) (i : nat) : Z :=
  Z.max 1 (rint (zone_width E i
                 / Qmax 0.01 (nth i R 0 * scale_factor E R frame_target))).

(** The points of zone [i]: [count_i] points from [E[i]] on, spaced by the
    [count_i]-th part of the zone, and the right end as one more point on
    the final zone; every point rounded to 0.05. *)
Definition is_final (R : list Q) (i : nat) : bool :=
  (S i =? List.length R)%nat.

Definition zone_points (E R : list Q) (frame_target : Q) (i : nat) : list Q :=
  let count := Z.to_nat (zone_count E R frame_target i) in
  let spacing := (threshold E (S i) - threshold E i) / inject_Z (Z.of_nat count) in
  map (fun k => round_point (threshold E i + inject_Z (Z.of_nat k) * spacing))
      (seq 0 (if is_final R i then S count else count)).

Definition spec_energies (E R : list Q) (frame_target : Q) : list Q :=
  flat_map (zone_points E R frame_target) (seq 0 (List.length R)).

(** ** The loops of [get_energies], zone by zone *)

(** What the first loop stores for zone [i]. *)
Definition first_count (E : list Q) (multiple : Q) (i : nat) (interval : Q)
  : pyfloat :=
  np_round (np_div (Fin (zone_width E i)) (Fin (interval * multiple))).

(** The number of points of a zone, as line 248 computes it. *)
Definition numpnt_of (e0 e1 interval : Q) (multiple : pyfloat) : Z :=
  match zone_numpnt e0 e1 interval multiple with
  | Ok n => n
  | Raise _ => 1%Z
  end.

(** What the second loop appends for zone [i]. *)
Definition segment (E : list Q) (len_ratios : nat) (singleinput : bool)
    (multiple : pyfloat) (i : nat) (interval : Q) : list Q :=
  let at_end := is_at_end i len_ratios singleinput in
  map round_point
    (linspace (threshold E i) (threshold E (S i))
       (numpnt_of (threshold E i) (threshold E (S i)) interval multiple
        + (if at_end then 1 else 0))%Z
       at_end).

(** A value on the grid of step 0.05. *)
Definition on_grid (v : Q) : Prop := exists k : Z, v == inject_Z k * 0.05.

(** Exposure scheduler: the four predicates of a rule, and what each
    requires of a point energy [e]. *)
Inductive predicate : Type :=
| less_than (t : Q)
| greater_than (t : Q)
| between (t1 t2 : Q)
| equals (t : Q).

Definition holds (p : predicate) (e : Q) : Prop :=
  match p with
  | less_than t => e < t
  | greater_than t => t < e
  | between t1 t2 => t1 < e /\ e < t2
  | equals t => e == t
  end.

Definition holdsb (p : predicate) (e : Q) : bool :=
  match p with
  | less_than t => Qltb e t
  | greater_than t => Qltb t e
  | between t1 t2 => Qltb t1 e && Qltb e t2
  | equals t => Qeq_bool e t
  end.

(** The tuple that states a predicate in an exposure list. *)
Definition test_of (p : predicate) : test :=
  match p with
  | less_than t => Test "less_than" [t]
  | greater_than t => Test "greater_than" [t]
  | between t1 t2 => Test "between" [t1; t2]
  | equals t => Test "equals" [t]
  end.

Definition rules_of (rules : list (predicate * Q)) : list (test * Q) :=
  map (fun rule => (test_of (fst rule), snd rule)) rules.

(** A point through the rules, one after the other, from [start]. *)
Definition run_rules (rules : list (predicate * Q)) (e start : Q) : Q :=
  fold_left (fun acc rule => if holdsb (fst rule) e then snd rule else acc)
            rules start.

(** Last-applied-wins: the value of the last rule of the list whose
    predicate holds at [e], the default when none does. *)
Definition last_applied (default : Q) (rules : list (predicate * Q)) (e : Q)
  : Q :=
  match find (fun rule => holdsb (fst rule) e) (rev rules) with
  | Some rule => snd rule
  | None => default
  end.

(** An exposure specification: one value for all points, or a default
    and rules; the argument that states it, and the exposures it asks
    for. *)
Inductive exposure_spec : Type :=
| one_value (v : Q)
| rule_list (default : Q) (rules : list (predicate * Q)).

Definition exposure_arg_of (spec : exposure_spec) : exposure_arg :=
  match spec with
  | one_value v => ExposureNum v
  | rule_list default rules => ExposureList default (rules_of rules)
  end.

Definition spec_exposures (spec : exposure_spec) (energies : list Q)
  : list Q :=
  match spec with
  | one_value v => map (fun _ => v) energies
  | rule_list default rules => map (last_applied default rules) energies
  end.

(** The closed form of the total duration:
    [sum(exposure_i * r) + 1 * (r - 1) * N + 4 * N]. *)
Definition closed_form_time (times : list Q) (r : Z) : Q :=
  fold_right Qplus 0 (map (fun t => t * inject_Z r) times)
  + 1 * inject_Z (r - 1) * inject_Z (Z.of_nat (List.length times))
  + 4 * inject_Z (Z.of_nat (List.length times)).

(** Equality of floats up to the value of the fraction. *)
Definition feq (a b : pyfloat) : Prop :=
  match a, b with
  | Fin x, Fin y => x == y
  | PInf, PInf | NInf, NInf | NaN, NaN => True
  | _, _ => False
  end.

(** ** Shapes of the plans *)

(** Zones that follow one another: each starts where the one before it
    ends. *)
Fixpoint contiguous (zones : list zone) : Prop :=
  match zones with
  | (_, stop, _) :: ((start, _, _) :: _) as rest =>
      stop = start /\ contiguous rest
  | _ => True
  end.

Definition zone_start (z : zone) : Q := fst (fst z).
Definition zone_stop (z : zone) : Q := snd (fst z).
Definition zone_rate (z : zone) : Q := snd z.

(** A value between the rounded ends of a zone, whichever end is the
    lower. *)
Definition within_zone (a b e : Q) : Prop :=
  (a <= b -> round_point a <= e /\ e <= round_point b)
  /\ (b <= a -> round_point b <= e /\ e <= round_point a).

(** The names of the tests the scheduler applies. *)
Definition known_name (name : string) : bool :=
  name_in name ["less_than"; "less than"; "greater_than"; "greater than";
                "between"; "equals"]%string.

(** ** spreadsheets.get_proposal_info

    The function asks the proposal service two questions and decides on
    the answers.  The service is a function from the path of a request to
    the JSON value of the answer; strings are ASCII. *)

Module Pass.

(** A JSON value as [json()] returns it; an object lists the entries of a
    dict, whose keys are distinct. *)
#[local] Unset Elimination Schemes.
Inductive json : Type :=
| JNull
| JBool (b : bool)
| JNum (n : Q)
| JStr (s : string)
| JList (items : list json)
| JObj (fields : list (string * json)).
#[local] Set Elimination Schemes.

(** The exceptions of this function. *)
Inductive error : Type :=
| AttributeError
| TypeErr
| KeyErr.

Inductive outcome (A : Type) : Type :=
| Return (a : A)
| Throw (e : error).

Arguments Return {A} a.
Arguments Throw {A} e.

Definition and_then {A B : Type} (r : outcome A) (k : A -> outcome B)
  : outcome B :=
  match r with
  | Return a => k a
  | Throw e => Throw e
  end.

Notation "x <~ r ;; k" := (and_then r (fun x => k))
  (at level 61, r at next level, right associativity).

(** [proposal_id]: a string or an integer. *)
Inductive proposal_arg : Type :=
| ProposalStr (s : string)
| ProposalInt (n : Z).

(** What the function returns: a tuple of four values, or the integer -1
    of line 411. *)
Inductive returned : Type :=
| Four (data_session valid_path valid_SAF proposal_info : json)
| MinusOne.

(** The warnings of lines 395 to 439. *)
Inductive warning : Type :=
| NoSafs
| NotValidForCycle
| NoCycleNotCommissioning
| NoSafInSystem
| NoSafForBeamline
| NoDirectories
| NoValidPaths.

Definition newline : string := String (ascii_of_nat 10) EmptyString.

(** The pattern of line 386, [^[GUCPpass]*-?(?P<proposal_number>\d+)$]:
    letters of the class, at most one dash, digits, and the end of the
    string or a newline that ends it. *)
Definition in_class (c : ascii) : bool :=
  existsb (Ascii.eqb c) ["G"; "U"; "C"; "P"; "p"; "a"; "s"; "s"]%char.

Definition is_digit (c : ascii) : bool :=
  (Ascii.leb "0" c && Ascii.leb c "9")%char.

Fixpoint skip_class (s : string) : string :=
  match s with
  | String c s' => if in_class c then skip_class s' else s
  | EmptyString => s
  end.

Definition skip_dash (s : string) : string :=
  match s with
  | String c s' => if Ascii.eqb c "-" then s' else s
  | EmptyString => s
  end.

Fixpoint take_digits (s : string) : string * string :=
  match s with
  | String c s' =>
      if is_digit c
      then let '(digits, rest) := take_digits s' in (String c digits, rest)
      else (EmptyString, s)
  | EmptyString => (EmptyString, EmptyString)
  end.

(** [proposal_re.match(s)], as the group [proposal_number] of the match. *)
Definition proposal_number (s : string) : option string :=
  let '(digits, rest) := take_digits (skip_dash (skip_class s)) in
  match digits with
  | EmptyString => None
  | _ =>
      if String.eqb rest EmptyString || String.eqb rest newline
      then Some digits
      else None
  end.

(** [f"{n}"] for an integer. *)
Definition str_of_Z (n : Z) : string := NilZero.string_of_int (Z.to_int n).

(** Lines 387-390: the proposal number that goes into the requests. *)
Definition proposal_of (proposal_id : proposal_arg) : outcome string :=
  match proposal_id with
  | ProposalStr s =>
      match proposal_number s with
      | Some number => Return number
      | None => Throw AttributeError
      end
  | ProposalInt n => Return (str_of_Z n)
  end.

(** A property of every character of a string. *)
Fixpoint string_forall (p : ascii -> bool) (s : string) : bool :=
  match s with
  | EmptyString => true
  | String c s' => p c && string_forall p s'
  end.

(** [needle in hay] on two strings. *)
Fixpoint contains (needle hay : string) : bool :=
  String.prefix needle hay
  || match hay with
     | EmptyString => false
     | String _ hay' => contains needle hay'
     end.

(** [v == s] for a string [s]. *)
Definition is_str (s : string) (v : json) : bool :=
  match v with
  | JStr s' => String.eqb s s'
  | _ => false
  end.

(** [s in container] for a string [s]. *)
Definition str_in (s : string) (container : json) : outcome bool :=
  match container with
  | JObj fields => Return (dict_mem fields s)
  | JList items => Return (existsb (is_str s) items)
  | JStr hay => Return (contains s hay)
  | _ => Throw TypeErr
  end.

(** [v[key]] for a string [key]. *)
Definition getitem (v : json) (key : string) : outcome json :=
  match v with
  | JObj fields =>
      match dict_get fields key with
      | Some x => Return x
      | None => Throw KeyErr
      end
  | _ => Throw TypeErr
  end.

Definition py_len (v : json) : outcome nat :=
  match v with
  | JObj fields => Return (List.length fields)
  | JList items => Return (List.length items)
  | JStr s => Return (String.length s)
  | _ => Throw TypeErr
  end.

(** The values a [for] loop runs over. *)
Definition py_iter (v : json) : outcome (list json) :=
  match v with
  | JObj fields => Return (map (fun kv => JStr (fst kv)) fields)
  | JList items => Return items
  | JStr s =>
      Return (map (fun c => JStr (String c EmptyString)) (list_ascii_of_string s))
  | _ => Throw TypeErr
  end.

(** Lines 417-419. *)
Fixpoint saf_loop (beamline : string) (safs : list json) (valid_SAF : json)
  : outcome json :=
  match safs with
  | [] => Return valid_SAF
  | saf :: rest =>
      status <~ getitem saf "status" ;;
      if is_str "APPROVED" status
      then
        instruments <~ getitem saf "instruments" ;;
        here <~ str_in beamline instruments ;;
        if here
        then saf_id <~ getitem saf "saf_id" ;; saf_loop beamline rest saf_id
        else saf_loop beamline rest valid_SAF
      else saf_loop beamline rest valid_SAF
  end.

(** Lines 432-436. *)
Fixpoint dir_loop (comissioning : bool) (path_base cycle : string)
    (dirs : list json) (valid_path : json) : outcome json :=
  match dirs with
  | [] => Return valid_path
  | dir :: rest =>
      path <~ getitem dir "path" ;;
      based <~ str_in path_base path ;;
      if comissioning
      then dir_loop comissioning path_base cycle rest
             (if based then path else valid_path)
      else if based
      then
        cycled <~ str_in cycle path ;;
        dir_loop comissioning path_base cycle rest
          (if cycled then path else valid_path)
      else dir_loop comissioning path_base cycle rest valid_path
  end.

Definition none4 : returned := Four JNull JNull JNull JNull.

(** Lines 412-445, once the proposal is known to be commissioning or
    valid for the cycle. *)
Definition saf_and_path (server : string -> json) (proposal : string)
    (res : json) (comissioning : bool) (beamline path_base cycle : string)
  : outcome (returned * list warning) :=
  safs <~ getitem res "safs" ;;
  _ <~ py_len safs ;;
  safs <~ py_iter safs ;;
  valid_SAF <~ saf_loop beamline safs (JStr "") ;;
  n <~ py_len valid_SAF ;;
  if (n =? 0)%nat then Return (none4, [NoSafForBeamline])
  else
    let dir_res := server ("/proposal/" ++ proposal ++ "/directories")%string in
    n <~ py_len dir_res ;;
    if (n <? 1)%nat then Return (none4, [NoDirectories])
    else
      dirs <~ py_iter dir_res ;;
      valid_path <~ dir_loop comissioning path_base cycle dirs (JStr "") ;;
      n <~ py_len valid_path ;;
      if (n =? 0)%nat then Return (none4, [NoValidPaths])
      else
        data_session <~ getitem res "data_session" ;;
        Return (Four data_session valid_path valid_SAF res, []).

Definition get_proposal_info (server : string -> json)
    (proposal_id : proposal_arg) (beamline path_base cycle : option string)
  : outcome (returned * list warning) :=
  let beamline := or_default beamline "SST1"%string in
  let path_base := or_default path_base "/sst/"%string in
  let cycle := or_default cycle "2023-1"%string in
  proposal <~ proposal_of proposal_id ;;
  let res := server ("/proposal/" ++ proposal)%string in
  has_safs <~ str_in "safs" res ;;
  if negb has_safs then Return (none4, [NoSafs])
  else
    has_cycles <~ str_in "cycles" res ;;
    if has_cycles
    then
      cycles <~ getitem res "cycles" ;;
      valid <~ str_in cycle cycles ;;
      if negb valid then Return (none4, [NotValidForCycle])
      else saf_and_path server proposal res false beamline path_base cycle
    else
      type <~ getitem res "type" ;;
      commissioning <~ str_in "Commissioning" type ;;
      if negb commissioning then Return (MinusOne, [NoCycleNotCommissioning])
      else saf_and_path server proposal res true beamline path_base cycle.

(** Line 349 of [load_samplesxlsx]: the result assigned to four targets. *)
Definition unpack4 (r : returned) : outcome (json * json * json * json) :=
  match r with
  | Four a b c d => Return (a, b, c, d)
  | MinusOne => Throw TypeErr
  end.

(** Line 349 of [load_samplesxlsx]: the call with the default beamline,
    path and cycle, and the four values it assigns. *)
Definition proposal_fields (server : string -> json)
    (proposal : proposal_arg) : outcome (json * json * json * json) :=
  answer <~ get_proposal_info server proposal None None None ;;
  unpack4 (fst answer).

(** A form that line 418 passes over. *)
Definition passed_over (beamline : string) (saf : json) : Prop :=
  exists status,
    getitem saf "status" = Return status
    /\ (is_str "APPROVED" status = false
        \/ exists instruments,
             getitem saf "instruments" = Return instruments
             /\ str_in beamline instruments = Return false).

(** A safety approval form that line 418 accepts, and its id. *)
Definition approved_saf (beamline : string) (saf saf_id : json) : Prop :=
  exists status instruments,
    getitem saf "status" = Return status
    /\ is_str "APPROVED" status = true
    /\ getitem saf "instruments" = Return instruments
    /\ str_in beamline instruments = Return true
    /\ getitem saf "saf_id" = Return saf_id.

(** A directory that lines 433 to 436 accept, and its path. *)
Definition valid_dir (comissioning : bool) (path_base cycle : string)
    (dir path : json) : Prop :=
  getitem dir "path" = Return path
  /\ str_in path_base path = Return true
  /\ (comissioning = false -> str_in cycle path = Return true).

(** A service that knows one proposal, of the cycle 2023-1, and a
    commissioning proposal. *)
Definition example_server (path : string) : json :=
  if String.eqb path "/proposal/312345" then
    JObj [ ("data_session", JStr "pass-312345");
           ("type", JStr "General User");
           ("cycles", JList [JStr "2022-3"; JStr "2023-1"]);
           ("safs",
            JList [ JObj [ ("saf_id", JStr "309000");
                           ("status", JStr "APPROVED");
                           ("instruments", JList [JStr "SST1"; JStr "SST2"]) ];
                    JObj [ ("saf_id", JStr "309001");
                           ("status", JStr "PENDING");
                           ("instruments", JList [JStr "SST1"]) ] ]) ]%string
  else if String.eqb path "/proposal/312345/directories" then
    JList [ JObj [("path", JStr "/nsls2/data/sst/proposals/2022-3/pass-312345")];
            JObj [("path", JStr "/nsls2/data/sst/proposals/2023-1/pass-312345")];
            JObj [("path", JStr "/nsls2/data/smi/proposals/2023-1/pass-312345")]
          ]%string
  else if String.eqb path "/proposal/400001" then
    JObj [ ("data_session", JStr "pass-400001");
           ("type", JStr "Beamline Discretionary Time");
           ("safs", JList []) ]%string
  else JObj [].

End Pass.


(** * [convertSampleSheetExcelMediaWiki]: the text of the tables

    Lines 579 and 635 to 665 of [spreadsheets.py] build the text of the
    wiki page from the frames read from the sheet.  A frame is taken
    here as the texts [str] gives for its column headers and for the
    cells of its rows; the version and the date as their texts. *)

Module Wiki.

Definition line_feed : ascii := ascii_of_nat 10.
Definition carriage_return : ascii := ascii_of_nat 13.
Definition nl : string := String line_feed EmptyString.
Definition quote : string := String (ascii_of_nat 34) EmptyString.

(** [s.replace(old, new)] for two characters. *)
Fixpoint replace_char (old new : ascii) (s : string) : string :=
  match s with
  | EmptyString => EmptyString
  | String c s' =>
      String (if Ascii.eqb c old then new else c) (replace_char old new s')
  end.

(** Lines 642 and 658. *)
Definition filtered (s : string) : string :=
  replace_char line_feed " " (replace_char carriage_return " " s).

(** [s[:-n]] for a positive [n]. *)
Definition drop_last (n : nat) (s : string) : string :=
  substring 0 (String.length s - n) s.

Record frame : Type := {
  columns : list string;
  rows : list (list string)
}.

(** The loops of lines 641-643 and 657-659. *)
Definition add_cells (sep : string) (outStr : string) (cells : list string)
  : string :=
  fold_left (fun outStr cell => outStr ++ (filtered cell ++ sep))%string
    cells outStr.

(** Lines 655-662, for one row. *)
Definition add_row (outStr : string) (row : list string) : string :=
  let outStr := (outStr ++ (nl ++ "|-" ++ nl ++ "| "))%string in
  let outStr := add_cells " || " outStr row in
  drop_last 4 outStr.

(** Lines 636-665, for one frame. *)
Definition add_table (outStr : string) (f : frame) : string :=
  let outStr :=
    (outStr ++ (nl ++ ("{| class=" ++ quote ++ "wikitable sortable" ++ quote)
                ++ nl ++ ("|-" ++ nl)))%string in
  let outStr := (outStr ++ "! ")%string in
  let outStr := add_cells " !! " outStr (columns f) in
  let outStr := drop_last 4 outStr in
  let outStr := fold_left add_row (rows f) outStr in
  (outStr ++ (nl ++ "|}" ++ nl))%string.

(** Line 579. *)
Definition page_header (versionStr today : string) : string :=
  ("== SST-1 Sample Sheet Syntax Version: " ++ versionStr
   ++ " Last Updated: " ++ today ++ " ==" ++ nl)%string.

(** The text the function returns. *)
Definition wiki_text (versionStr today : string) (frames : list frame)
  : string :=
  fold_left add_table frames (page_header versionStr today).

(** The same text, written with joins. *)
Definition row_text (row : list string) : string :=
  (nl ++ "|-" ++ nl ++ "| " ++ String.concat " || " (map filtered row))%string.

Definition table_text (f : frame) : string :=
  (nl ++ "{| class=" ++ quote ++ "wikitable sortable" ++ quote ++ nl
   ++ "|-" ++ nl
   ++ "! " ++ String.concat " !! " (map filtered (columns f))
   ++ String.concat "" (map row_text (rows f))
   ++ nl ++ "|}" ++ nl)%string.

(** A frame with a column, and a cell in every row. *)
Definition has_cells (f : frame) : Prop :=
  columns f <> [] /\ forall row, In row (rows f) -> row <> [].

(** The line feeds of a text. *)
Fixpoint count_char (c : ascii) (s : string) : nat :=
  match s with
  | EmptyString => 0
  | String c' s' => (if Ascii.eqb c' c then 1 else 0) + count_char c s'
  end.

Definition example_frame : frame :=
  {| columns := ["Sheet"; "Parameter"; "Rules"]%string;
     rows := [ ["Bar"; "sample_id"; String line_feed "REQUIRED"];
               ["Bar"; "notes"; " "] ]%string |}.

End Wiki.
(** * Properties *)

(** ** Lists, indices and rationals *)

(** Arithmetic on rationals is kept folded by [simpl] and [cbn]. *)
#[local] Arguments Qabs _ : simpl never.
#[local] Arguments Qplus _ _ : simpl never.
#[local] Arguments Qminus _ _ : simpl never.
#[local] Arguments Qmult _ _ : simpl never.
#[local] Arguments Qdiv _ _ : simpl never.
#[local] Arguments Qopp _ : simpl never.
#[local] Arguments Qinv _ : simpl never.
#[local] Arguments Qcompare _ _ : simpl never.
#[local] Arguments Qeq_bool _ _ : simpl never.
#[local] Arguments Qfloor _ : simpl never.
#[local] Arguments inject_Z _ : simpl never.
#[local] Arguments Z.mul _ _ : simpl never.
#[local] Arguments Z.add _ _ : simpl never.
#[local] Arguments Z.sub _ _ : simpl never.
#[local] Arguments Z.of_nat _ : simpl never.
#[local] Arguments Z.to_nat _ : simpl never.

Lemma index_nth {A : Type} (l : list A) (i : nat) (d : A) :
  (i < List.length l)%nat -> index l i = Ok (nth i l d).
Proof.
  intros Hi. unfold index.
  rewrite (nth_error_nth' l d Hi). reflexivity.
Qed.

Lemma enumerate_map {A B : Type} (f : nat -> A -> B) (d : A) (l : list A) :
  forall k,
    map (fun p => f (fst p) (snd p)) (combine (seq k (List.length l)) l)
    = map (fun i => f i (nth (i - k) l d)) (seq k (List.length l)).
Proof.
  induction l as [|a l IH]; intros k; simpl; [reflexivity|].
  rewrite Nat.sub_diag. f_equal.
  rewrite IH. apply map_ext_in. intros i Hi. apply in_seq in Hi.
  replace (i - k)%nat with (S (i - S k)) by lia. reflexivity.
Qed.

Lemma enumerate_map0 {A B : Type} (f : nat -> A -> B) (d : A) (l : list A) :
  map (fun p => f (fst p) (snd p)) (combine (seq 0 (List.length l)) l)
  = map (fun i => f i (nth i l d)) (seq 0 (List.length l)).
Proof.
  rewrite (enumerate_map f d l 0). apply map_ext. intros i.
  rewrite Nat.sub_0_r. reflexivity.
Qed.

Lemma Qltb_true (a b : Q) : Qltb a b = true <-> a < b.
Proof.
  unfold Qltb.
  destruct (Qcompare_spec a b) as [He|Hl|Hg]; split; intros H;
    try reflexivity; try discriminate H; try assumption.
  - rewrite He in H. exfalso. exact (Qlt_irrefl _ H).
  - exfalso. exact (Qlt_irrefl _ (Qlt_trans _ _ _ H Hg)).
Qed.

Lemma Qltb_false (a b : Q) : Qltb a b = false <-> b <= a.
Proof.
  unfold Qltb.
  destruct (Qcompare_spec a b) as [He|Hl|Hg]; split; intros H;
    try reflexivity; try discriminate H.
  - rewrite He. apply Qle_refl.
  - exfalso. exact (Qlt_not_le _ _ Hl H).
  - apply Qlt_le_weak. exact Hg.
Qed.

#[local] Instance Qltb_comp : Proper (Qeq ==> Qeq ==> eq) Qltb.
Proof. intros a a' Ha b b' Hb. unfold Qltb. rewrite Ha, Hb. reflexivity. Qed.

#[local] Instance rint_comp : Proper (Qeq ==> eq) rint.
Proof.
  intros x y Hxy. unfold rint.
  rewrite (Qfloor_comp _ _ Hxy).
  assert (H : x - inject_Z (Qfloor y) == y - inject_Z (Qfloor y))
    by (rewrite Hxy; reflexivity).
  rewrite H. reflexivity.
Qed.

Lemma rint_Z (z : Z) : rint (inject_Z z) = z.
Proof.
  unfold rint. rewrite Qfloor_Z.
  assert (H : inject_Z z - inject_Z z == 0) by ring.
  rewrite H. reflexivity.
Qed.

Lemma round_point_comp (x y : Q) : x == y -> round_point x = round_point y.
Proof.
  intros Hxy. unfold round_point, np_around1.
  assert (H : x * 2 * 10 == y * 2 * 10) by (rewrite Hxy; reflexivity).
  rewrite H. reflexivity.
Qed.

Lemma round_point_grid (x : Q) :
  round_point x == inject_Z (rint (x * 2 * 10)) * 0.05.
Proof. unfold round_point, np_around1. field. Qed.

(** The check of lines 100 and 232 on lengths that match. *)
Ltac count_matches :=
  match goal with
  | |- context [(?a + 1 =? ?b)%nat] =>
      replace (a + 1 =? b)%nat with true
        by (symmetry; apply Nat.eqb_eq; lia);
      cbn [negb]
  end.

(** ** The speed planner *)

Lemma py_div_ok (a b : Q) : ~ b == 0 -> py_div a b = Ok (a / b).
Proof.
  intros Hb. unfold py_div.
  destruct (Qeq_bool b 0) eqn:E; [|reflexivity].
  apply Qeq_bool_eq in E. contradiction.
Qed.

Lemma nexafs_loop_ok (E : list Q) (s : Q) :
  forall (rest : list Q) (i : nat) (acc : list zone) (t : Q),
    (i + List.length rest < List.length E)%nat ->
    Forall (fun r => ~ r * s == 0) rest ->
    exists t',
      nexafs_loop E s i rest acc t
      = Ok (acc ++ map (fun p => (threshold E (fst p), threshold E (S (fst p)),
                                  snd p * s))
                       (combine (seq i (List.length rest)) rest), t')
      /\ t' == t + fold_right Qplus 0
                     (map (fun p => zone_width E (fst p) / (snd p * s))
                          (combine (seq i (List.length rest)) rest)).
Proof.
  induction rest as [|r rest IH]; intros i acc t Hlen Hnz; simpl.
  - exists t. rewrite app_nil_r. split; [reflexivity | ring].
  - simpl in Hlen. inversion Hnz as [|? ? Hr Hrest]; subst.
    rewrite (index_nth E i 0) by lia.
    rewrite (index_nth E (S i) 0) by lia. simpl.
    rewrite py_div_ok by assumption. simpl.
    destruct (IH (S i) (acc ++ [(nth i E 0, nth (S i) E 0, r * s)])
                (t + Qabs (nth (S i) E 0 - nth i E 0) / (r * s)))
      as [t' [Heq Ht']]; [lia | assumption |].
    exists t'. split.
    + rewrite Heq, <- app_assoc. reflexivity.
    + rewrite Ht'. unfold zone_width, threshold. simpl. ring.
Qed.

(** C4.  When the edge resolves to thresholds [E], the speed to [s > 0]
    and the weights to [R], one fewer than the thresholds and none of them
    zero, [get_nexafs_scan_params] returns the zones
    [(E[i], E[i+1], R[i] * s)] in order, and a duration equal to the sum
    of [|E[i+1] - E[i]| / (R[i] * s)] over the zones. *)
Theorem nexafs_zones_and_duration
    (default_speed : speed_arg) (edge : edge_arg) (speed : option speed_arg)
    (ratios : ratios_arg) (E : list Q) (edge_input : edge_arg) (s : Q)
    (R : list Q) :
  nexafs_edge edge = Ok (E, edge_input) ->
  resolve_speed (or_default speed default_speed) = Ok s ->
  nexafs_ratios ratios edge_input E = Ok R ->
  List.length E = S (List.length R) ->
  0 < s ->
  Forall (fun r => ~ r == 0) R ->
  exists time,
    get_nexafs_scan_params default_speed edge speed ratios
    = Ok (spec_zones E R s, time)
    /\ time == closed_form_duration E R s.
Proof.
  intros HE Hspeed Hratios Hlen Hs HR.
  unfold get_nexafs_scan_params.
  rewrite HE. cbn [bind]. rewrite Hspeed. cbn [bind].
  rewrite Hratios. cbn [bind].
  count_matches.
  destruct (nexafs_loop_ok E s R 0 [] 0) as [t [Heq Ht]].
  - lia.
  - eapply Forall_impl; [|exact HR]. intros r Hr Hz. cbn beta in *.
    apply Qmult_integral in Hz. destruct Hz as [Hz|Hz]; [contradiction|].
    rewrite Hz in Hs. apply (Qlt_irrefl 0 Hs).
  - exists t. split.
    + rewrite Heq. cbn [app]. unfold spec_zones.
      rewrite <- (enumerate_map0
        (fun i r => (threshold E i, threshold E (S i), r * s)) 0 R).
      reflexivity.
    + rewrite Ht. unfold closed_form_duration.
      rewrite <- (enumerate_map0 (fun i r => zone_width E i / (r * s)) 0 R).
      ring.
Qed.

Lemma nexafs_zones_and_duration_witness :
  exists time,
    get_nexafs_scan_params (SpeedStr "normal") (EdgeStr "Carbon") None
      (RatiosSeq [5; 1; 2])
    = Ok (spec_zones [250; 282; 297; 350] [5; 1; 2] 0.2, time)
    /\ time == closed_form_duration [250; 282; 297; 350] [5; 1; 2] 0.2.
Proof.
  apply (nexafs_zones_and_duration (SpeedStr "normal") (EdgeStr "Carbon")
           None (RatiosSeq [5; 1; 2]) [250; 282; 297; 350] (EdgeStr "Carbon")
           0.2 [5; 1; 2]).
  - reflexivity.
  - reflexivity.
  - reflexivity.
  - reflexivity.
  - reflexivity.
  - repeat constructor; intros H; discriminate H.
Defined.

(** A zero weight makes the duration of its zone a division by zero. *)
Example nexafs_zero_ratio :
  get_nexafs_scan_params (SpeedStr "normal") (EdgeSeq [250; 260])
    (Some (SpeedNum 1)) (RatiosSeq [0])
  = Raise ZeroDivisionError.
Proof. reflexivity. Qed.

Example nexafs_carbon :
  get_nexafs_scan_params (SpeedStr "normal") (EdgeStr "C") None RatiosNone
  = Ok ([(250, 282, 5 * 0.2); (282, 297, 1 * 0.2); (297, 350, 5 * 0.2)],
        0 + Qabs (282 - 250) / (5 * 0.2) + Qabs (297 - 282) / (1 * 0.2)
          + Qabs (350 - 297) / (5 * 0.2)).
Proof. reflexivity. Qed.

(** ** The count of weights *)

(** C8.  Both planners accept thresholds [E] and weights [R] only when
    [R] has one element fewer than [E]: once the edge, the speed or frame
    number and the weights are resolved, any other length raises the
    [ValueError] of the count, and a call that returns had matching
    lengths. *)
Theorem ratio_count_checked
    (default_speed : speed_arg) (default_frames : frames_arg)
    (edge : edge_arg) (ratios : ratios_arg) :
  (forall speed s E edge_input R,
      nexafs_edge edge = Ok (E, edge_input) ->
      resolve_speed (or_default speed default_speed) = Ok s ->
      nexafs_ratios ratios edge_input E = Ok R ->
      ((List.length R + 1 <> List.length E)%nat ->
       get_nexafs_scan_params default_speed edge speed ratios
       = Raise (ValueError msg_wrong_number))
      /\ (forall plan,
             get_nexafs_scan_params default_speed edge speed ratios
             = Ok plan ->
             (List.length R + 1 = List.length E)%nat))
  /\ (forall frames f E edge_input singleinput R,
         energies_edge edge = Ok (E, edge_input, singleinput) ->
         resolve_frames (or_default frames default_frames) = Ok f ->
         energies_ratios ratios edge_input E = Ok R ->
         ((List.length R + 1 <> List.length E)%nat ->
          get_energies default_frames edge frames ratios
          = Raise (ValueError msg_wrong_number))
         /\ (forall energies,
                get_energies default_frames edge frames ratios
                = Ok energies ->
                (List.length R + 1 = List.length E)%nat)).
Proof.
  split.
  - intros speed s E edge_input R HE Hs HR.
    unfold get_nexafs_scan_params. rewrite HE. cbn [bind].
    rewrite Hs. cbn [bind]. rewrite HR. cbn [bind].
    destruct (List.length R + 1 =? List.length E)%nat eqn:Hlen; cbn [negb].
    + apply Nat.eqb_eq in Hlen. split; [intros Hne; contradiction | auto].
    + split; [reflexivity | intros plan H; discriminate H].
  - intros frames f E edge_input singleinput R HE Hf HR.
    unfold get_energies. rewrite HE. cbn [bind].
    rewrite Hf. cbn [bind]. rewrite HR. cbn [bind].
    destruct (List.length R + 1 =? List.length E)%nat eqn:Hlen; cbn [negb].
    + apply Nat.eqb_eq in Hlen. split; [intros Hne; contradiction | auto].
    + split; [reflexivity | intros plan H; discriminate H].
Qed.

Lemma ratio_count_checked_witness :
  get_nexafs_scan_params (SpeedStr "normal") (EdgeStr "carbon")
    (Some (SpeedStr "fast")) (RatiosSeq [5; 1])
  = Raise (ValueError msg_wrong_number)
  /\ get_energies (FramesStr "full") (EdgeSeq [250; 260; 270])
       (Some (FramesNum 40)) (RatiosStr "default 4")
     = Raise (ValueError msg_wrong_number).
Proof.
  destruct (ratio_count_checked (SpeedStr "normal") (FramesStr "full")
              (EdgeStr "carbon") (RatiosSeq [5; 1])) as [Hn _].
  destruct (ratio_count_checked (SpeedStr "normal") (FramesStr "full")
              (EdgeSeq [250; 260; 270]) (RatiosStr "default 4")) as [_ He].
  split.
  - apply (Hn (Some (SpeedStr "fast")) 0.5 [250; 282; 297; 350]
              (EdgeStr "carbon") [5; 1]); try reflexivity.
    cbn. intros H. discriminate H.
  - apply (He (Some (FramesNum 40)) 40 [250; 260; 270]
              (EdgeSeq [250; 260; 270]) false [2; 0.2; 2]); try reflexivity.
    cbn. intros H. discriminate H.
Defined.

(** ** The frame number *)

(** C10.  A nan frame number raises nothing: it is replaced by the key
    ["full"], which the table resolves to 112, and the call is the call
    with 112 frames; it is the call without a frame number as soon as the
    default resolves to 112 too. *)
Theorem frames_nan_is_full
    (default_frames : frames_arg) (edge : edge_arg) (ratios : ratios_arg) :
  resolve_frames FramesNaN = Ok 112
  /\ get_energies default_frames edge (Some FramesNaN) ratios
     = get_energies default_frames edge (Some (FramesStr "full")) ratios
  /\ get_energies default_frames edge (Some FramesNaN) ratios
     = get_energies default_frames edge (Some (FramesNum 112)) ratios
  /\ (resolve_frames default_frames = Ok 112 ->
      get_energies default_frames edge (Some FramesNaN) ratios
      = get_energies default_frames edge None ratios).
Proof.
  repeat split.
  intros Hd. unfold get_energies.
  destruct (energies_edge edge) as [[[E edge_input] singleinput]|e];
    cbn [bind]; [|reflexivity].
  cbn [or_default]. rewrite Hd. reflexivity.
Qed.

Lemma frames_nan_is_full_witness :
  get_energies (FramesStr "full") (EdgeSeq [250; 260; 270]) (Some FramesNaN)
    RatiosNone
  = get_energies (FramesStr "full") (EdgeSeq [250; 260; 270]) None RatiosNone.
Proof.
  apply (frames_nan_is_full (FramesStr "full") (EdgeSeq [250; 260; 270])
           RatiosNone).
  reflexivity.
Defined.

(** With a nan frame number the carbon edge is planned, on 114 points. *)
Example frames_nan_carbon :
  exists energies,
    get_energies (FramesStr "full") (EdgeStr "carbon") (Some FramesNaN)
      RatiosNone = Ok energies
    /\ List.length energies = 114%nat.
Proof. eexists. split; vm_compute; reflexivity. Qed.

(** ** The exposure scheduler *)

Lemma holdsb_holds (p : predicate) (e : Q) : holdsb p e = true <-> holds p e.
Proof.
  destruct p as [t|t|t1 t2|t]; cbn [holdsb holds].
  - apply Qltb_true.
  - apply Qltb_true.
  - rewrite andb_true_iff, !Qltb_true. reflexivity.
  - apply Qeq_bool_iff.
Qed.

Lemma mask_assign_length (times : list Q) :
  forall mask value,
    List.length (mask_assign times mask value) = List.length times.
Proof.
  induction times as [|t times IH]; intros [|m mask] value; cbn;
    try reflexivity.
  rewrite IH. reflexivity.
Qed.

Lemma mask_assign_map (energies : list Q) (f : Q -> bool) (value : Q) :
  forall times,
    List.length times = List.length energies ->
    mask_assign times (map f energies) value
    = map (fun p => if f (fst p) then value else snd p)
          (combine energies times).
Proof.
  induction energies as [|e energies IH]; intros [|t times] Hlen;
    cbn in *; try reflexivity; try discriminate.
  rewrite IH by lia. reflexivity.
Qed.

Lemma apply_test_length (energies times times' : list Q) (t : test) (v : Q) :
  apply_test energies times t v = Ok times' ->
  List.length times' = List.length times.
Proof.
  unfold apply_test.
  repeat match goal with
  | |- context [if ?b then _ else _] => destruct b
  | |- context [index ?l ?i] => destruct (index l i); cbn [bind]
  end;
  intros H; inversion H; subst; try apply mask_assign_length.
Qed.

Lemma apply_tests_length (energies : list Q) (rules : list (test * Q)) :
  forall times times',
    apply_tests energies times rules = Ok times' ->
    List.length times' = List.length times.
Proof.
  induction rules as [|[t v] rules IH]; intros times times' H; cbn in H.
  - inversion H. reflexivity.
  - destruct (apply_test energies times t v) as [times1|e] eqn:E;
      cbn [bind] in H; [|discriminate H].
    rewrite (IH _ _ H). exact (apply_test_length _ _ _ _ _ E).
Qed.

Lemma exposure_times_length (energies : list Q) (spec : exposure_arg)
    (times : list Q) :
  exposure_times energies spec = Ok times ->
  List.length times = List.length energies.
Proof.
  unfold exposure_times.
  destruct spec as [[|c s]|v|d rules]; intros H.
  - inversion H. apply length_map.
  - inversion H. reflexivity.
  - inversion H. apply length_map.
  - rewrite (apply_tests_length _ _ _ _ H). apply length_map.
Qed.

Lemma fold_left_Qplus (l : list Q) :
  forall a, fold_left Qplus l a == a + fold_right Qplus 0 l.
Proof.
  induction l as [|x l IH]; intros a; cbn [fold_left fold_right].
  - ring.
  - rewrite IH. ring.
Qed.

Lemma sum_overheads (times : list Q) (r c : Q) :
  fold_right Qplus 0 (map (fun t => t + c) (map (fun t => t * r) times))
  == fold_right Qplus 0 (map (fun t => t * r) times)
     + c * inject_Z (Z.of_nat (List.length times)).
Proof.
  induction times as [|t times IH].
  - cbn. ring.
  - cbn [map fold_right List.length]. rewrite IH.
    rewrite Nat2Z.inj_succ. unfold Z.succ. rewrite inject_Z_plus. ring.
Qed.

(** One rule, on the array. *)
Lemma apply_test_of (energies times : list Q) (p : predicate) (value : Q) :
  List.length times = List.length energies ->
  apply_test energies times (test_of p) value
  = Ok (map (fun x => if holdsb p (fst x) then value else snd x)
            (combine energies times)).
Proof.
  intros Hlen.
  destruct p as [t|t|t1 t2|t]; unfold apply_test; cbn;
    rewrite mask_assign_map by exact Hlen; try reflexivity.
  f_equal. apply map_ext. intros [e x]. cbn.
  rewrite Qeq_bool_comm. reflexivity.
Qed.

Lemma apply_tests_run (energies : list Q) (rules : list (predicate * Q)) :
  forall times,
    List.length times = List.length energies ->
    apply_tests energies times (rules_of rules)
    = Ok (map (fun x => run_rules rules (fst x) (snd x))
              (combine energies times)).
Proof.
  induction rules as [|[p v] rules IH]; intros times Hlen.
  - cbn. f_equal. clear -Hlen. revert times Hlen.
    induction energies as [|e energies IH]; intros [|t times] Hlen;
      cbn in *; try reflexivity; try discriminate.
    rewrite <- IH by lia. reflexivity.
  - cbn [rules_of map apply_tests fst snd].
    rewrite apply_test_of by exact Hlen. cbn [bind].
    fold (rules_of rules). rewrite IH.
    + f_equal. clear. revert times.
      induction energies as [|e energies IHe]; intros [|t times];
        cbn; try reflexivity.
      rewrite IHe. reflexivity.
    + rewrite length_map, length_combine, Hlen. apply Nat.min_id.
Qed.

Lemma run_rules_last (rules : list (predicate * Q)) (e d : Q) :
  run_rules rules e d = last_applied d rules e.
Proof.
  unfold run_rules, last_applied.
  induction rules as [|rule rules IH] using rev_ind.
  - reflexivity.
  - rewrite fold_left_app, rev_app_distr. cbn.
    destruct (holdsb (fst rule) e); [reflexivity | exact IH].
Qed.

Lemma last_applied_none (d : Q) (rules : list (predicate * Q)) (e : Q) :
  (forall p v, In (p, v) rules -> ~ holds p e) ->
  last_applied d rules e = d.
Proof.
  intros Hnone. unfold last_applied.
  destruct (find _ (rev rules)) as [[p v]|] eqn:E; [|reflexivity].
  apply find_some in E. destruct E as [Hin Hp]. cbn in Hp.
  apply in_rev in Hin. apply holdsb_holds in Hp.
  exfalso. exact (Hnone p v Hin Hp).
Qed.

Lemma last_applied_last (d : Q) (before after : list (predicate * Q))
    (p : predicate) (v e : Q) :
  holds p e ->
  (forall p' v', In (p', v') after -> ~ holds p' e) ->
  last_applied d (before ++ (p, v) :: after) e = v.
Proof.
  intros Hp Hafter. rewrite <- run_rules_last. unfold run_rules.
  rewrite fold_left_app. cbn [fold_left fst snd].
  apply holdsb_holds in Hp. rewrite Hp.
  fold (run_rules after e v). rewrite run_rules_last.
  apply last_applied_none. exact Hafter.
Qed.

Lemma exposure_times_rules
    (energies : list Q) (default : Q) (rules : list (predicate * Q)) :
  exposure_times energies (ExposureList default (rules_of rules))
  = Ok (map (last_applied default rules) energies).
Proof.
  unfold exposure_times.
  rewrite apply_tests_run by apply length_map.
  f_equal. induction energies as [|e energies IH]; cbn; [reflexivity|].
  rewrite run_rules_last, IH. reflexivity.
Qed.

Lemma exposure_times_spec (energies : list Q) (spec : exposure_spec) :
  exposure_times energies (exposure_arg_of spec)
  = Ok (spec_exposures spec energies).
Proof.
  destruct spec as [v|default rules]; [reflexivity|].
  apply exposure_times_rules.
Qed.

(** The time estimate, on whatever argument gives the exposures. *)
Lemma total_time_of_times
    (dafault_warning_step_time : Q) (energies : list Q)
    (exposure_time : exposure_arg) (r : Z) (times : list Q) :
  (1 <= r <= 100)%Z ->
  exposure_times energies exposure_time = Ok times ->
  exists time,
    construct_exposure_times dafault_warning_step_time (NdArray energies)
      exposure_time r
    = Ok (times, time,
          if Qltb dafault_warning_step_time time then [step_warning] else [])
    /\ List.length times = List.length energies
    /\ time == closed_form_time times r.
Proof.
  intros Hr Htimes. unfold construct_exposure_times.
  replace ((1 >? r) || (100 <? r))%Z with false
    by (symmetry; apply orb_false_iff; split; lia).
  rewrite Htimes. cbn [bind].
  eexists. split; [reflexivity|]. split.
  - exact (exposure_times_length _ _ _ Htimes).
  - unfold sumQ, closed_form_time.
    rewrite fold_left_Qplus, sum_overheads, !inject_Z_mult. ring.
Qed.

(** C5.  For an array of [N] energies, an exposure specification and
    [1 <= r <= 100], [construct_exposure_times] returns the exposures of
    the specification, one per energy, with the duration
    [sum(exposure_i * r) + 1 * (r - 1) * N + 4 * N]; a duration over the
    warning threshold adds the warning and changes nothing of the
    result. *)
Theorem exposure_total_time
    (dafault_warning_step_time : Q) (energies : list Q)
    (spec : exposure_spec) (r : Z) :
  (1 <= r <= 100)%Z ->
  exists time,
    construct_exposure_times dafault_warning_step_time (NdArray energies)
      (exposure_arg_of spec) r
    = Ok (spec_exposures spec energies, time,
          if Qltb dafault_warning_step_time time then [step_warning] else [])
    /\ List.length (spec_exposures spec energies) = List.length energies
    /\ time == closed_form_time (spec_exposures spec energies) r.
Proof.
  intros Hr.
  apply total_time_of_times; [exact Hr | apply exposure_times_spec].
Qed.

Lemma exposure_total_time_witness :
  exists time,
    construct_exposure_times 1800 (NdArray [250; 260; 270; 280])
      (exposure_arg_of (rule_list 1 [(less_than 270, 10)])) 2
    = Ok (spec_exposures (rule_list 1 [(less_than 270, 10)])
            [250; 260; 270; 280],
          time, if Qltb 1800 time then [step_warning] else [])
    /\ List.length (spec_exposures (rule_list 1 [(less_than 270, 10)])
                      [250; 260; 270; 280])
       = List.length [250; 260; 270; 280]
    /\ time == closed_form_time
                 (spec_exposures (rule_list 1 [(less_than 270, 10)])
                    [250; 260; 270; 280]) 2.
Proof.
  apply (exposure_total_time 1800 [250; 260; 270; 280]
           (rule_list 1 [(less_than 270, 10)]) 2).
  lia.
Defined.

(** The list of the docstring: 10 below 270, 1 elsewhere; two repeats of
    four points take 22 * 2 + 1 * 4 + 4 * 4 = 64 seconds. *)
Example exposure_less_than_270 :
  construct_exposure_times 1800 (NdArray [250; 260; 270; 280])
    (ExposureList 1 [(Test "less_than" [270], 10)]) 2
  = Ok ([10; 10; 1; 1],
        0 + (10 * 2 + 1) + (10 * 2 + 1) + (1 * 2 + 1) + (1 * 2 + 1) + 16, [])
  /\ closed_form_time [10; 10; 1; 1] 2 == 64.
Proof. split; reflexivity. Qed.

(** A scan over the threshold is returned with its warning. *)
Example long_step_warns :
  construct_exposure_times 1800 (NdArray [250; 260; 270; 280])
    (ExposureNum 500) 1
  = Ok ([500; 500; 500; 500],
        0 + (500 * 1 + inject_Z (1 * (1 - 1)))
          + (500 * 1 + inject_Z (1 * (1 - 1)))
          + (500 * 1 + inject_Z (1 * (1 - 1)))
          + (500 * 1 + inject_Z (1 * (1 - 1))) + inject_Z (4 * 4),
        [step_warning]).
Proof. reflexivity. Qed.

Example repeats_out_of_range :
  construct_exposure_times 1800 (NdArray [250]) (ExposureNum 1) 0
  = Raise (ValueError msg_repeats)
  /\ construct_exposure_times 1800 (NdArray [250]) (ExposureNum 1) 101
     = Raise (ValueError msg_repeats).
Proof. split; reflexivity. Qed.

(** C6.  On a list [[default, test, value, ...]] of rules with the four
    predicates, every point starts at the default and takes the value of
    the last rule, in the order of the list, whose predicate holds at its
    energy: [less_than t] holds when [e < t], [greater_than t] when
    [e > t], [between t1 t2] when [t1 < e < t2] with both ends excluded,
    [equals t] when [e == t]. *)
Theorem exposure_rules_last_applied
    (energies : list Q) (default : Q) (rules : list (predicate * Q)) :
  exposure_times energies (ExposureList default (rules_of rules))
  = Ok (map (last_applied default rules) energies)
  /\ (forall e,
         (forall p v, In (p, v) rules -> ~ holds p e) ->
         last_applied default rules e = default)
  /\ (forall e before p v after,
         rules = before ++ (p, v) :: after ->
         holds p e ->
         (forall p' v', In (p', v') after -> ~ holds p' e) ->
         last_applied default rules e = v).
Proof.
  split; [|split].
  - apply exposure_times_rules.
  - intros e. apply last_applied_none.
  - intros e before p v after -> Hp Hafter.
    apply last_applied_last; assumption.
Qed.

Lemma exposure_rules_last_applied_witness :
  exposure_times [250; 286; 300]
    (ExposureList 1 (rules_of [(less_than 290, 10); (between 285 288, 0.1)]))
  = Ok [10; 0.1; 1]
  /\ last_applied 1 [(less_than 290, 10); (between 285 288, 0.1)] 300 = 1
  /\ last_applied 1 [(less_than 290, 10); (between 285 288, 0.1)] 286 = 0.1.
Proof.
  destruct (exposure_rules_last_applied [250; 286; 300] 1
              [(less_than 290, 10); (between 285 288, 0.1)])
    as [Hrun [Hnone Hlast]].
  split; [exact Hrun|]. split.
  - apply Hnone. intros p v [H|[H|[]]]; inversion H; subst; cbn.
    + intros Hlt. discriminate Hlt.
    + intros [_ Hlt]. discriminate Hlt.
  - apply (Hlast 286 [(less_than 290, 10)] (between 285 288) 0.1 []).
    + reflexivity.
    + split; reflexivity.
    + intros p' v' [].
Defined.

(** ** The energy list generator: the first pass *)

Lemma setitem_ok {A : Type} (a : list A) :
  forall i v,
    (i < List.length a)%nat ->
    setitem a i v = Ok (firstn i a ++ v :: skipn (S i) a).
Proof.
  induction a as [|x a IH]; intros [|i] v Hi; cbn in *; try lia.
  - reflexivity.
  - rewrite IH by lia. reflexivity.
Qed.

Lemma firstn_snoc {A : Type} (a l : list A) (i : nat) (v : A) :
  (i <= List.length a)%nat ->
  firstn (S i) (firstn i a ++ v :: l) = firstn i a ++ [v].
Proof.
  intros Hi. rewrite firstn_app, length_firstn.
  replace (Nat.min i (List.length a)) with i by lia.
  replace (S i - i)%nat with 1%nat by lia.
  rewrite firstn_firstn. replace (Nat.min (S i) i) with i by lia.
  reflexivity.
Qed.

Lemma numpnts_loop_ok (E : list Q) (m : Q) :
  forall (rest : list Q) (i : nat) (numpnts : list pyfloat),
    (i + List.length rest < List.length E)%nat ->
    List.length numpnts = (i + List.length rest)%nat ->
    numpnts_loop E m i rest numpnts
    = Ok (firstn i numpnts
          ++ map (fun p => first_count E m (fst p) (snd p))
                 (combine (seq i (List.length rest)) rest)).
Proof.
  induction rest as [|r rest IH]; intros i numpnts HE Hn.
  - cbn. rewrite app_nil_r, firstn_all2 by (cbn in Hn; lia). reflexivity.
  - cbn [numpnts_loop List.length] in *.
    rewrite (index_nth E i 0), (index_nth E (S i) 0) by lia. cbn [bind].
    rewrite setitem_ok by lia. cbn [bind].
    rewrite IH.
    + rewrite firstn_snoc by lia. rewrite <- app_assoc. reflexivity.
    + lia.
    + rewrite length_app, length_firstn. cbn [List.length].
      rewrite length_skipn. lia.
Qed.

Lemma first_pass (E R : list Q) :
  List.length E = S (List.length R) ->
  numpnts_loop E 1 0 R (zeros_like R)
  = Ok (map (fun i => first_count E 1 i (nth i R 0))
            (seq 0 (List.length R))).
Proof.
  intros Hlen. rewrite numpnts_loop_ok.
  - cbn [firstn app]. rewrite (enumerate_map0 (first_count E 1) 0 R).
    reflexivity.
  - lia.
  - unfold zeros_like. rewrite length_map. reflexivity.
Qed.

Lemma first_count_finite (E R : list Q) (i : nat) :
  ~ nth i R 0 == 0 ->
  first_count E 1 i (nth i R 0) = Fin (inject_Z (reference_count E R i)).
Proof.
  intros Hr. unfold first_count, reference_count, np_div.
  destruct (Qcompare_spec (nth i R 0 * 1) 0) as [H|H|H];
    [exfalso; apply Hr; rewrite <- (Qmult_1_r (nth i R 0)); exact H | |];
    cbn [np_round]; do 2 f_equal; apply rint_comp; field; exact Hr.
Qed.

Lemma py_sum_finite (c : nat -> Z) (l : list nat) :
  forall a,
    fold_left np_add (map (fun i => Fin (inject_Z (c i))) l) (Fin a)
    = Fin (fold_left Qplus (map (fun i => inject_Z (c i)) l) a).
Proof.
  induction l as [|i l IH]; intros a; cbn [map fold_left]; [reflexivity|].
  cbn [np_add]. apply IH.
Qed.

Lemma sum_inject_Z (c : nat -> Z) (l : list nat) :
  fold_right Qplus 0 (map (fun i => inject_Z (c i)) l)
  == inject_Z (fold_right Z.add 0%Z (map c l)).
Proof.
  induction l as [|i l IH]; cbn [map fold_right]; [reflexivity|].
  rewrite IH, inject_Z_plus. reflexivity.
Qed.

(** With no zero weight and a frame number other than zero, the multiple
    is finite, and is the scale factor [S / frame_target]. *)
Lemma multiple_finite (E R : list Q) (ft : Q) :
  List.length E = S (List.length R) ->
  Forall (fun r => ~ r == 0) R ->
  ~ ft == 0 ->
  exists q,
    multiple_of E ft R = Ok (Fin q) /\ q == scale_factor E R ft.
Proof.
  intros Hlen HR Hft. unfold multiple_of.
  rewrite first_pass by exact Hlen. cbn [bind].
  rewrite (map_ext_in _ (fun i => Fin (inject_Z (reference_count E R i)))).
  2:{ intros i Hi. apply in_seq in Hi. apply first_count_finite.
      rewrite Forall_forall in HR. apply HR. apply nth_In. lia. }
  unfold scale_multiple, py_sum. rewrite py_sum_finite.
  assert (Hsum :
    fold_left Qplus
      (map (fun i => inject_Z (reference_count E R i))
           (seq 0 (List.length R))) 0
    == inject_Z (natural_total E R)).
  { rewrite fold_left_Qplus, sum_inject_Z. unfold natural_total. ring. }
  destruct R as [|r R].
  - unfold py_div. destruct (Qeq_bool ft 0) eqn:Ef;
      [apply Qeq_bool_eq in Ef; contradiction|].
    cbn [bind np_mul]. eexists. split; [reflexivity|].
    unfold scale_factor, natural_total. cbn. field. exact Hft.
  - cbn [bind]. unfold np_div.
    destruct (Qcompare_spec ft 0) as [H|H|H]; [contradiction| |];
      cbn [np_mul]; eexists; (split; [reflexivity|]);
      unfold scale_factor; rewrite Hsum; field; exact Hft.
Qed.

(** ** The energy list generator: the second pass *)

Lemma Qmax_comp (a b b' : Q) : b == b' -> Qmax a b == Qmax a b'.
Proof.
  intros Hb. unfold Qmax. rewrite Hb.
  destruct (Qltb a b'); [exact Hb | reflexivity].
Qed.

Lemma Qmax_lower (a b : Q) : a <= Qmax a b.
Proof.
  unfold Qmax. destruct (Qltb a b) eqn:E.
  - apply Qlt_le_weak, Qltb_true, E.
  - apply Qle_refl.
Qed.

Lemma py_int_Z (z : Z) : py_int (Fin (inject_Z z)) = Ok z.
Proof. unfold py_int, inject_Z. cbn [Qnum Qden]. rewrite Z.quot_1_r. reflexivity. Qed.

Lemma zone_numpnt_finite (e0 e1 r q : Q) :
  zone_numpnt e0 e1 r (Fin q)
  = Ok (Z.max 1 (rint (Qabs (e1 - e0) / Qmax 0.01 (r * q)))).
Proof.
  unfold zone_numpnt. cbn [np_mul]. unfold py_max. cbn [np_lt].
  assert (Hpos : 0 < Qmax 0.01 (r * q)).
  { apply Qlt_le_trans with 0.01; [reflexivity | apply Qmax_lower]. }
  assert (Hfold :
    (if Qltb 0.01 (r * q) then Fin (r * q) else Fin 0.01)
    = Fin (Qmax 0.01 (r * q))).
  { unfold Qmax. destruct (Qltb 0.01 (r * q)); reflexivity. }
  rewrite Hfold. unfold np_div.
  destruct (Qcompare_spec (Qmax 0.01 (r * q)) 0) as [H|H|H].
  - rewrite H in Hpos. exfalso. exact (Qlt_irrefl _ Hpos).
  - exfalso. exact (Qlt_irrefl _ (Qlt_trans _ _ _ Hpos H)).
  - cbn [np_round]. rewrite py_int_Z. reflexivity.
Qed.

Lemma zone_numpnt_comp (e0 e1 r q q' : Q) :
  q == q' -> zone_numpnt e0 e1 r (Fin q) = zone_numpnt e0 e1 r (Fin q').
Proof.
  intros Hq. rewrite !zone_numpnt_finite. do 2 f_equal.
  apply rint_comp.
  assert (H : Qmax 0.01 (r * q) == Qmax 0.01 (r * q'))
    by (apply Qmax_comp; rewrite Hq; reflexivity).
  rewrite H. reflexivity.
Qed.

(** Line 248 raises nothing: the divisor is 0.01 at least, or infinite. *)
Lemma zone_numpnt_total (e0 e1 r : Q) (m : pyfloat) :
  zone_numpnt e0 e1 r m = Ok (numpnt_of e0 e1 r m).
Proof.
  unfold numpnt_of.
  destruct m as [q| | |].
  - rewrite zone_numpnt_finite. reflexivity.
  - unfold zone_numpnt. cbn [np_mul].
    destruct (Qcompare_spec r 0) as [H|H|H]; cbn; reflexivity.
  - unfold zone_numpnt. cbn [np_mul].
    destruct (Qcompare_spec r 0) as [H|H|H]; cbn; reflexivity.
  - reflexivity.
Qed.

Section SecondLoop.

(** The loop on thresholds [E], for [n] weights and the multiple [m]. *)
Variables (E : list Q) (n : nat) (singleinput : bool) (m : pyfloat).

Lemma energies_loop_ok :
  forall (rest : list Q) (i : nat) (acc : list Q),
    (i + List.length rest < List.length E)%nat ->
    Forall (fun r => 0.01 <= r) rest ->
    np_lt m (Fin 0.01) = false ->
    energies_loop E n singleinput m i rest acc
    = Ok (acc ++ flat_map (fun p => segment E n singleinput m (fst p) (snd p))
                          (combine (seq i (List.length rest)) rest)).
Proof.
  induction rest as [|r rest IH]; intros i acc Hlen HR Hm.
  - cbn. rewrite app_nil_r. reflexivity.
  - cbn [energies_loop List.length] in *.
    inversion HR as [|? ? Hr Hrest]; subst.
    replace (Qltb r 0.01) with false by (symmetry; apply Qltb_false, Hr).
    rewrite Hm.
    rewrite (index_nth E i 0), (index_nth E (S i) 0) by lia. cbn [bind].
    rewrite zone_numpnt_total. cbn [bind].
    rewrite IH by (try lia; assumption).
    cbn [seq combine flat_map fst snd]. rewrite <- app_assoc.
    reflexivity.
Qed.

Lemma energies_loop_raises :
  forall (rest : list Q) (i : nat) (acc : list Q),
    (i + List.length rest < List.length E)%nat ->
    Exists (fun r => r < 0.01) rest
    \/ (rest <> [] /\ np_lt m (Fin 0.01) = true) ->
    energies_loop E n singleinput m i rest acc
    = Raise (ValueError msg_ratio_value).
Proof.
  induction rest as [|r rest IH]; intros i acc Hlen Hbad.
  - destruct Hbad as [Hex|[Hne _]]; [inversion Hex | contradiction].
  - cbn [energies_loop List.length] in *.
    destruct (Qltb r 0.01) eqn:Er; [reflexivity|].
    destruct (np_lt m (Fin 0.01)) eqn:Em; [reflexivity|].
    rewrite (index_nth E i 0), (index_nth E (S i) 0) by lia. cbn [bind].
    rewrite zone_numpnt_total. cbn [bind].
    apply IH; [lia|]. left.
    destruct Hbad as [Hex|[_ Hm]]; [|discriminate Hm].
    inversion Hex as [? ? Hr|? ? Hrest]; subst; [|exact Hrest].
    apply Qltb_true in Hr. rewrite Hr in Er. discriminate Er.
Qed.

Lemma energies_loop_grid :
  forall (rest : list Q) (i : nat) (acc out : list Q),
    Forall on_grid acc ->
    energies_loop E n singleinput m i rest acc = Ok out ->
    Forall on_grid out.
Proof.
  induction rest as [|r rest IH]; intros i acc out Hacc H;
    cbn [energies_loop] in H.
  - inversion H; subst. exact Hacc.
  - destruct (Qltb r 0.01); [discriminate H|].
    destruct (np_lt m (Fin 0.01)); [discriminate H|].
    destruct (index E i) as [e0|]; cbn [bind] in H; [|discriminate H].
    destruct (index E (S i)) as [e1|]; cbn [bind] in H; [|discriminate H].
    destruct (zone_numpnt e0 e1 r m) as [numpnt|]; cbn [bind] in H;
      [|discriminate H].
    apply IH in H; [exact H|].
    apply Forall_app. split; [exact Hacc|].
    apply Forall_forall. intros v Hv. apply in_map_iff in Hv.
    destruct Hv as [x [Hx _]]. subst v.
    exists (rint (x * 2 * 10)). apply round_point_grid.
Qed.

End SecondLoop.

Lemma multiple_of_total (E R : list Q) (ft : Q) :
  R <> [] ->
  List.length E = S (List.length R) ->
  exists m, multiple_of E ft R = Ok m.
Proof.
  intros HR Hlen. unfold multiple_of.
  rewrite first_pass by exact Hlen. cbn [bind].
  destruct R as [|r R]; [contradiction|].
  unfold scale_multiple. cbn [bind]. eexists. reflexivity.
Qed.

Lemma get_energies_resolved
    (default_frames : frames_arg) (edge : edge_arg)
    (frames : option frames_arg) (ratios : ratios_arg)
    (E : list Q) (edge_input : edge_arg) (singleinput : bool) (ft : Q)
    (R : list Q) :
  energies_edge edge = Ok (E, edge_input, singleinput) ->
  resolve_frames (or_default frames default_frames) = Ok ft ->
  energies_ratios ratios edge_input E = Ok R ->
  List.length E = S (List.length R) ->
  get_energies default_frames edge frames ratios
  = energies_of E singleinput ft R.
Proof.
  intros HE Hft HR Hlen. unfold get_energies.
  rewrite HE. cbn [bind]. rewrite Hft. cbn [bind]. rewrite HR. cbn [bind].
  count_matches. reflexivity.
Qed.

(** ** A bare number as the edge *)

Lemma Qabs_self (v : Q) : Qabs (v - v) == 0.
Proof.
  assert (H : v - v == 0) by ring.
  rewrite H. reflexivity.
Qed.

Lemma zero_width_scale (v r f : Q) : scale_factor [v; v] [r] f == 0.
Proof.
  unfold scale_factor, natural_total, reference_count, zone_width, threshold.
  cbn [List.length seq map fold_right nth].
  assert (H : Qabs (v - v) / r == 0)
    by (rewrite Qabs_self; unfold Qdiv; ring).
  rewrite (rint_comp _ _ H). change (inject_Z (rint 0 + 0)) with 0.
  unfold Qdiv. ring.
Qed.

(** The zone of a bare number has width zero, so the first pass counts no
    point, the multiple is zero, and the guard of line 246 raises, unless
    the guard of line 244 has raised on the weight. *)
Lemma single_zone_raises (v f r : Q) (singleinput : bool) :
  ~ f == 0 ->
  energies_of [v; v] singleinput f [r] = Raise (ValueError msg_ratio_value).
Proof.
  intros Hf. unfold energies_of.
  destruct (multiple_of_total [v; v] [r] f) as [m Hm];
    [discriminate | reflexivity |].
  rewrite Hm. cbn [bind]. apply energies_loop_raises; [cbn; lia|].
  destruct (Qltb r 0.01) eqn:Er.
  - left. constructor. apply Qltb_true. exact Er.
  - right. split; [discriminate|].
    assert (Hr0 : ~ r == 0).
    { intros H0. apply Qltb_false in Er. rewrite H0 in Er.
      apply Er. reflexivity. }
    destruct (multiple_finite [v; v] [r] f) as [q [Hq Hqs]];
      [reflexivity | repeat constructor; exact Hr0 | exact Hf |].
    rewrite Hq in Hm. inversion Hm; subst m.
    cbn [np_lt]. apply Qltb_true.
    rewrite Hqs, zero_width_scale. reflexivity.
Qed.

Lemma scalar_edge_any_weights (v f : Q) (R : list Q) :
  ~ f == 0 ->
  exists e,
    (if negb (List.length R + 1 =? 2)%nat
     then Raise (ValueError msg_wrong_number)
     else energies_of [v; v] true f R) = Raise e.
Proof.
  intros Hf.
  destruct R as [|r [|r' R]]; cbn [List.length Nat.add Nat.eqb negb].
  - eexists. reflexivity.
  - rewrite single_zone_raises by exact Hf. eexists. reflexivity.
  - rewrite Nat.add_1_r. cbn [Nat.eqb negb]. eexists. reflexivity.
Qed.

(** C1.  On a bare number [v] as the edge [get_energies] returns no
    energy list: for every frame number that resolves to a number other
    than zero, and whatever the weights, the call raises; with the weights
    left out it is the [ValueError] of line 247, the multiple of the
    zero-width zone [(v, v)] being zero. *)
Theorem scalar_edge_raises
    (default_frames : frames_arg) (v : Q) (frames : option frames_arg)
    (f : Q) (ratios : ratios_arg) :
  resolve_frames (or_default frames default_frames) = Ok f ->
  ~ f == 0 ->
  (exists e,
      get_energies default_frames (EdgeNum v) frames ratios = Raise e)
  /\ get_energies default_frames (EdgeNum v) frames RatiosNone
     = Raise (ValueError msg_ratio_value).
Proof.
  intros Hfr Hf.
  assert (Hnone :
    get_energies default_frames (EdgeNum v) frames RatiosNone
    = Raise (ValueError msg_ratio_value)).
  { unfold get_energies. cbn [energies_edge lookup_edge bind].
    rewrite Hfr. cbn [bind].
    change (energies_ratios RatiosNone (EdgeNum v) [v; v]) with (Ok [2]).
    cbn [bind List.length Nat.add Nat.eqb negb].
    apply single_zone_raises. exact Hf. }
  split; [|exact Hnone].
  destruct ratios as [|s|x|R]; [eexists; exact Hnone| | |];
    [destruct s as [|c s]; [eexists; exact Hnone|]| |];
    unfold get_energies; cbn [energies_edge lookup_edge bind];
    rewrite Hfr; cbn [bind].
  - cbn [energies_ratios]. unfold dict_item.
    destruct (dict_get Energies.intervals_table (String c s)) as [R|];
      cbn [bind]; [|eexists; reflexivity].
    apply scalar_edge_any_weights. exact Hf.
  - eexists. reflexivity.
  - cbn [energies_ratios bind]. apply scalar_edge_any_weights. exact Hf.
Qed.

Lemma scalar_edge_raises_witness :
  (exists e,
      get_energies (FramesStr "full") (EdgeNum 285) (Some (FramesNum 112))
        (RatiosSeq [1]) = Raise e)
  /\ get_energies (FramesStr "full") (EdgeNum 285) (Some (FramesNum 112))
       RatiosNone
     = Raise (ValueError msg_ratio_value).
Proof.
  apply (scalar_edge_raises (FramesStr "full") 285 (Some (FramesNum 112)) 112
           (RatiosSeq [1])).
  - reflexivity.
  - intros H. discriminate H.
Defined.

(** The call of the docstring, a number and nothing else, with the
    default frame number of 112. *)
Example scalar_edge_default_call :
  get_energies (FramesStr "full") (EdgeNum 285) None RatiosNone
  = Raise (ValueError msg_ratio_value).
Proof. reflexivity. Qed.

(** Only a frame number of zero lets the bare number through: the
    multiple is then nan, which no guard catches. *)
Example scalar_edge_zero_frames :
  get_energies (FramesStr "full") (EdgeNum 285) (Some (FramesNum 0))
    RatiosNone
  = Ok [round_point (0 * (285 - 285) + 285)].
Proof. reflexivity. Qed.



(** The counts on [(250, 260, 270)], weights [(2, 0.2)] and 10 frames:
    5 and 50 in the first pass, a scale of 5.5, then 1 and 9. *)
Example two_pass_counts_values :
  map (reference_count [250; 260; 270] [2; 0.2]) [0; 1]%nat = [5; 50]%Z
  /\ scale_factor [250; 260; 270] [2; 0.2] 10 == 5.5
  /\ map (zone_count [250; 260; 270] [2; 0.2] 10) [0; 1]%nat = [1; 9]%Z.
Proof. repeat split. Qed.



(** C9.  Every value [get_energies] returns is a multiple of 0.05. *)
Theorem energies_on_grid
    (default_frames : frames_arg) (edge : edge_arg)
    (frames : option frames_arg) (ratios : ratios_arg) (energies : list Q) :
  get_energies default_frames edge frames ratios = Ok energies ->
  Forall on_grid energies.
Proof.
  unfold get_energies. intros H.
  destruct (energies_edge edge) as [[[E edge_input] singleinput]|];
    cbn [bind] in H; [|discriminate H].
  destruct (resolve_frames _) as [f|]; cbn [bind] in H; [|discriminate H].
  destruct (energies_ratios ratios edge_input E) as [R|]; cbn [bind] in H;
    [|discriminate H].
  destruct (negb _); [discriminate H|].
  unfold energies_of in H.
  destruct (multiple_of E f R) as [m|]; cbn [bind] in H; [|discriminate H].
  eapply energies_loop_grid; [|exact H]. constructor.
Qed.

Lemma energies_on_grid_witness :
  exists energies,
    get_energies (FramesStr "full") (EdgeSeq [250; 260; 270])
      (Some (FramesNum 3)) (RatiosSeq [2; 1]) = Ok energies
    /\ Forall on_grid energies.
Proof.
  eexists. split.
  - vm_compute. reflexivity.
  - apply (energies_on_grid (FramesStr "full") (EdgeSeq [250; 260; 270])
             (Some (FramesNum 3)) (RatiosSeq [2; 1])).
    vm_compute. reflexivity.
Defined.

(** ** The segments of the zones *)

Lemma linspace_open (a b : Q) (c : Z) :
  (1 <= c)%Z ->
  linspace a b c false
  = map (fun k => inject_Z (Z.of_nat k) * ((b - a) / inject_Z c) + a)
        (seq 0 (Z.to_nat c)).
Proof.
  intros Hc. unfold linspace. cbn [andb].
  replace (0 <? c)%Z with true by lia. reflexivity.
Qed.

Lemma linspace_closed (a b : Q) (c : Z) :
  (1 <= c)%Z ->
  linspace a b (c + 1) true
  = set_last
      (map (fun k => inject_Z (Z.of_nat k) * ((b - a) / inject_Z c) + a)
           (seq 0 (S (Z.to_nat c))))
      b.
Proof.
  intros Hc. unfold linspace.
  replace (c + 1 - 1)%Z with c by lia.
  replace (0 <? c)%Z with true by lia.
  replace (1 <? c + 1)%Z with true by lia.
  replace (Z.to_nat (c + 1)) with (S (Z.to_nat c)) by lia.
  reflexivity.
Qed.

Lemma map_set_last (f : Q -> Q) (l : list Q) (v : Q) :
  f (last l 0) = f v -> map f (set_last l v) = map f l.
Proof.
  induction l as [|x l IH]; intros Hlast; [reflexivity|].
  destruct l as [|y l].
  - cbn in *. rewrite Hlast. reflexivity.
  - change (set_last (x :: y :: l) v) with (x :: set_last (y :: l) v).
    cbn [map]. f_equal. apply IH. exact Hlast.
Qed.

Lemma inject_Z_nonzero (c : Z) : (1 <= c)%Z -> ~ inject_Z c == 0.
Proof.
  intros Hc H. unfold Qeq, inject_Z in H. cbn [Qnum Qden] in H. lia.
Qed.

Lemma is_at_end_final (R : list Q) (i : nat) :
  is_at_end i (List.length R) false = is_final R i.
Proof.
  unfold is_at_end, is_final. cbn [negb]. rewrite andb_true_r.
  destruct (Z.eqb_spec (Z.of_nat i) (Z.of_nat (List.length R) - 1));
    destruct (Nat.eqb_spec (S i) (List.length R)); try reflexivity; lia.
Qed.

Lemma zone_count_pos (E R : list Q) (ft : Q) (i : nat) :
  (1 <= zone_count E R ft i)%Z.
Proof. unfold zone_count. apply Z.le_max_l. Qed.

(** What the second loop appends for a zone is the zone's points. *)
Lemma segment_zone_points (E R : list Q) (ft q : Q) (i : nat) :
  q == scale_factor E R ft ->
  segment E (List.length R) false (Fin q) i (nth i R 0)
  = zone_points E R ft i.
Proof.
  intros Hq. unfold segment, zone_points.
  assert (Hc : numpnt_of (threshold E i) (threshold E (S i)) (nth i R 0)
                 (Fin q) = zone_count E R ft i).
  { unfold numpnt_of.
    rewrite (zone_numpnt_comp _ _ _ q (scale_factor E R ft) Hq).
    rewrite zone_numpnt_finite. reflexivity. }
  rewrite Hc, is_at_end_final.
  pose proof (zone_count_pos E R ft i) as Hpos.
  set (c := zone_count E R ft i) in *.
  set (a := threshold E i). set (b := threshold E (S i)).
  assert (Hid : Z.of_nat (Z.to_nat c) = c) by lia.
  rewrite Hid.
  pose proof (inject_Z_nonzero c Hpos) as Hnz.
  destruct (is_final R i).
  - rewrite linspace_closed by exact Hpos.
    rewrite map_set_last.
    + rewrite map_map. apply map_ext. intros k.
      apply round_point_comp. unfold Qdiv. ring.
    + rewrite seq_S, map_app. cbn [map]. rewrite last_last. cbn [Nat.add].
      apply round_point_comp. rewrite Hid. field. exact Hnz.
  - replace (c + 0)%Z with c by lia.
    rewrite linspace_open by exact Hpos.
    rewrite map_map. apply map_ext. intros k.
    apply round_point_comp. unfold Qdiv. ring.
Qed.

Lemma zone_points_length (E R : list Q) (ft : Q) (i : nat) :
  List.length (zone_points E R ft i)
  = (Z.to_nat (zone_count E R ft i) + (if is_final R i then 1 else 0))%nat.
Proof.
  unfold zone_points. rewrite length_map, length_seq.
  destruct (is_final R i); lia.
Qed.

Lemma zone_points_first (E R : list Q) (ft : Q) (i : nat) :
  nth 0 (zone_points E R ft i) 0 = round_point (threshold E i).
Proof.
  unfold zone_points.
  pose proof (zone_count_pos E R ft i) as Hpos.
  destruct (Z.to_nat (zone_count E R ft i)) as [|n] eqn:En; [lia|].
  assert (H : forall l, nth 0 (map (fun k =>
      round_point (threshold E i + inject_Z (Z.of_nat k)
        * ((threshold E (S i) - threshold E i) / inject_Z (Z.of_nat (S n)))))
      (0%nat :: l)) 0 = round_point (threshold E i)).
  { intros l. cbn [map nth]. apply round_point_comp.
    change (inject_Z (Z.of_nat 0)) with 0. ring. }
  destruct (is_final R i); cbn [seq]; apply H.
Qed.

Lemma zone_points_last (E R : list Q) (ft : Q) (i : nat) :
  is_final R i = true ->
  In (round_point (threshold E (S i))) (zone_points E R ft i).
Proof.
  intros Hfinal. unfold zone_points. rewrite Hfinal.
  pose proof (zone_count_pos E R ft i) as Hpos.
  set (n := Z.to_nat (zone_count E R ft i)).
  apply in_map_iff. exists n. split.
  - apply round_point_comp. field. apply inject_Z_nonzero. lia.
  - apply in_seq. lia.
Qed.



(** The list of the witness: one point for the first zone, nine and the
    right end for the second. *)
Example zone_segments_values :
  Forall2 Qeq (spec_energies [250; 260; 270] [2; 0.2] 10)
    [250; 260; 261.1; 262.2; 263.35; 264.45; 265.55; 266.65; 267.8; 268.9;
     270].
Proof. repeat (constructor; [reflexivity|]). constructor. Qed.

(** The carbon edge with its own weights and 112 frames: 114 points, all
    seven thresholds among them. *)
Example carbon_edge_thresholds :
  exists energies,
    get_energies (FramesStr "full") (EdgeStr "carbon") None RatiosNone
    = Ok energies
    /\ List.length energies = 114%nat
    /\ forallb (fun e => existsb (Qeq_bool e) energies)
         [250; 270; 282; 287; 292; 305; 350] = true.
Proof. eexists. repeat split; vm_compute; reflexivity. Qed.

(** * Further properties of the planners *)

(** ** Names are looked up without regard to case *)

Lemma lower_ascii_idem (c : ascii) : lower_ascii (lower_ascii c) = lower_ascii c.
Proof. destruct c as [[] [] [] [] [] [] [] []]; reflexivity. Qed.

Lemma lower_idem (s : string) : lower (lower s) = lower s.
Proof.
  induction s as [|c s IH]; cbn [lower]; [reflexivity|].
  rewrite lower_ascii_idem, IH. reflexivity.
Qed.

Lemma lookup_edge_case (edges : dict (list Q)) (s s' : string) :
  lower s = lower s' ->
  match lookup_edge edges (EdgeStr s), lookup_edge edges (EdgeStr s') with
  | (EdgeSeq E, ei), (EdgeSeq E', ei') => E = E' /\ edge_key ei = edge_key ei'
  | (EdgeStr _, EdgeStr _), (EdgeStr _, EdgeStr _) => True
  | _, _ => False
  end.
Proof.
  intros Hs. unfold lookup_edge. rewrite <- Hs.
  destruct (dict_get edge_names (lower s)) as [canonical|].
  - destruct (dict_get edges (lower canonical)); [split; reflexivity | exact I].
  - rewrite <- Hs. destruct (dict_get edges (lower s)); [|exact I].
    split; [reflexivity|]. cbn [edge_key]. rewrite Hs. reflexivity.
Qed.

Lemma default_ratios_key (table : dict (list Q)) (ei ei' : edge_arg)
    (E : list Q) :
  edge_key ei = edge_key ei' ->
  default_ratios table ei E = default_ratios table ei' E.
Proof. intros H. unfold default_ratios. rewrite H. reflexivity. Qed.

(** X1.  An edge name is taken without regard to case by both planners,
    and so are the names of a speed and of a frame number: two strings
    with the same lower case give the same result, error or plan. *)
Theorem names_ignore_case
    (default_speed : speed_arg) (default_frames : frames_arg)
    (s s' : string) :
  lower s = lower s' ->
  (forall speed ratios,
      get_nexafs_scan_params default_speed (EdgeStr s) speed ratios
      = get_nexafs_scan_params default_speed (EdgeStr s') speed ratios)
  /\ (forall frames ratios,
         get_energies default_frames (EdgeStr s) frames ratios
         = get_energies default_frames (EdgeStr s') frames ratios)
  /\ resolve_speed (SpeedStr s) = resolve_speed (SpeedStr s')
  /\ resolve_frames (FramesStr s) = resolve_frames (FramesStr s').
Proof.
  intros Hs. repeat split.
  - intros speed ratios. unfold get_nexafs_scan_params, nexafs_edge.
    pose proof (lookup_edge_case Nexafs.edges s s' Hs) as H.
    destruct (lookup_edge Nexafs.edges (EdgeStr s)) as [[x|x|E] ei];
      destruct (lookup_edge Nexafs.edges (EdgeStr s')) as [[x'|x'|E'] ei'];
      try contradiction; try reflexivity;
      try (destruct ei; contradiction);
      try (destruct ei; destruct ei'; contradiction).
    destruct H as [-> Hkey]. cbn [bind].
    destruct (resolve_speed _); cbn [bind]; [|reflexivity].
    replace (nexafs_ratios ratios ei' E') with (nexafs_ratios ratios ei E');
      [reflexivity|].
    destruct ratios as [|[|c r]|v|l]; cbn [nexafs_ratios];
      try reflexivity; f_equal; apply default_ratios_key; exact Hkey.
  - intros frames ratios. unfold get_energies, energies_edge.
    pose proof (lookup_edge_case Energies.edges s s' Hs) as H.
    unfold lookup_edge in *.
    destruct (dict_get edge_names (lower s)) as [c|];
      destruct (dict_get edge_names (lower s')) as [c'|];
      repeat match goal with
      | H : context [dict_get Energies.edges ?k] |- _ =>
          destruct (dict_get Energies.edges k)
      end; try contradiction; try reflexivity;
      destruct H as [-> Hkey]; cbn [bind];
      (destruct (resolve_frames _); cbn [bind]; [|reflexivity]);
      match goal with
      | |- context [energies_ratios ratios ?a ?E] =>
          match goal with
          | |- _ = bind (energies_ratios ratios ?b E) _ =>
              replace (energies_ratios ratios b E)
                with (energies_ratios ratios a E); [reflexivity|]
          end
      end;
      (destruct ratios as [|[|ch r]|v|l]; cbn [energies_ratios];
       try reflexivity; f_equal; apply default_ratios_key; exact Hkey).
  - unfold resolve_speed. rewrite Hs. destruct (dict_get _ _); reflexivity.
  - unfold resolve_frames. rewrite Hs. destruct (dict_get _ _); reflexivity.
Qed.

Lemma names_ignore_case_witness :
  get_energies (FramesStr "full") (EdgeStr "CarbonK") (Some (FramesStr "Short"))
    RatiosNone
  = get_energies (FramesStr "full") (EdgeStr "carbonk")
      (Some (FramesStr "Short")) RatiosNone
  /\ resolve_frames (FramesStr "Short") = resolve_frames (FramesStr "short").
Proof.
  destruct (names_ignore_case (SpeedStr "normal") (FramesStr "full")
              "CarbonK" "carbonk") as [_ [He [_ Hf]]]; [reflexivity|].
  split; [apply He|].
  destruct (names_ignore_case (SpeedStr "normal") (FramesStr "full")
              "Short" "short") as [_ [_ [_ Hf']]]; [reflexivity|].
  exact Hf'.
Defined.

(** ** Weights left out *)

Lemma str_of_nat_inj (n m : nat) : str_of_nat n = str_of_nat m -> n = m.
Proof.
  unfold str_of_nat. intros H.
  apply (f_equal NilEmpty.uint_of_string) in H.
  rewrite !NilEmpty.usu in H. inversion H as [H'].
  rewrite <- (DecimalNat.Unsigned.of_to n), <- (DecimalNat.Unsigned.of_to m).
  rewrite H'. reflexivity.
Qed.

(** Peels the comparisons of a key with the keys of a dict literal. *)
Ltac split_keys H :=
  repeat match type of H with
  | context [String.eqb ?a ?b] =>
      destruct (String.eqb_spec a b)
  end.

Lemma nexafs_default_key (n : nat) (r : list Q) :
  dict_get Nexafs.ratios_table ("default " ++ str_of_nat n) = Some r ->
  (List.length r + 1 = n)%nat /\ Forall (fun x => 0 < x) r.
Proof.
  remember (str_of_nat n) as x eqn:Hx. intros H. cbn in H.
  split_keys H; try discriminate H; inversion H; subst r;
    match goal with
    | E : x = ?k |- _ =>
        rewrite Hx in E;
        match k with
        | "4"%string => change k with (str_of_nat 4) in E
        | "5"%string => change k with (str_of_nat 5) in E
        | "6"%string => change k with (str_of_nat 6) in E
        | "2"%string => change k with (str_of_nat 2) in E
        | "3"%string => change k with (str_of_nat 3) in E
        end;
        apply str_of_nat_inj in E; subst n
    end;
    (split; [reflexivity | repeat constructor]).
Qed.

Lemma energies_default_key (n : nat) (r : list Q) :
  dict_get Energies.intervals_table ("default " ++ str_of_nat n) = Some r ->
  (List.length r + 1 = n)%nat /\ Forall (fun x => 0.01 <= x) r.
Proof.
  remember (str_of_nat n) as x eqn:Hx. intros H. cbn in H.
  split_keys H; try discriminate H; inversion H; subst r;
    match goal with
    | E : x = ?k |- _ =>
        rewrite Hx in E;
        match k with
        | "4"%string => change k with (str_of_nat 4) in E
        | "5"%string => change k with (str_of_nat 5) in E
        | "6"%string => change k with (str_of_nat 6) in E
        | "2"%string => change k with (str_of_nat 2) in E
        | "3"%string => change k with (str_of_nat 3) in E
        end;
        apply str_of_nat_inj in E; subst n
    end;
    (split; [reflexivity | repeat constructor; intros C; discriminate C]).
Qed.

(** No edge of the speed planner's table has weights of its own, and all
    have four thresholds. *)
Lemma nexafs_named_edge (k : string) (E : list Q) :
  dict_get Nexafs.edges k = Some E ->
  dict_get Nexafs.ratios_table k = None /\ List.length E = 4%nat.
Proof.
  intros H. cbn in H.
  split_keys H; try discriminate H; inversion H; subst; split; reflexivity.
Qed.

(** The weights the energy table keeps under the name of an edge fit the
    thresholds of that edge. *)
Lemma energies_named_edge (k : string) (E : list Q) :
  dict_get Energies.edges k = Some E ->
  match dict_get Energies.intervals_table k with
  | Some r => (List.length r + 1 = List.length E)%nat
              /\ Forall (fun x => 0.01 <= x) r
  | None => True
  end.
Proof.
  intros H. cbn in H.
  split_keys H; try discriminate H; inversion H; subst; cbn; try exact I;
    (split; [reflexivity | repeat constructor; intros C; discriminate C]).
Qed.

(** The key of a resolved edge name is a key of the table of edges. *)
Lemma lookup_edge_key (edges : dict (list Q)) (s : string) (E : list Q)
    (ei : edge_arg) :
  lookup_edge edges (EdgeStr s) = (EdgeSeq E, ei) ->
  exists k, edge_key ei = Some k /\ dict_get edges k = Some E.
Proof.
  unfold lookup_edge.
  destruct (dict_get edge_names (lower s)) as [c|].
  - destruct (dict_get edges (lower c)) eqn:Hc; intros H; inversion H; subst.
    exists (lower c). split; [|exact Hc].
    cbn [edge_key]. rewrite lower_idem. reflexivity.
  - destruct (dict_get edges (lower s)) eqn:Hc; intros H; inversion H; subst.
    exists (lower s). split; [reflexivity | exact Hc].
Qed.

Lemma length_ones (n : nat) :
  (0 < n)%nat -> (List.length (repeat 1%Q (n - 1)) + 1 = n)%nat.
Proof. intros Hn. rewrite repeat_length. lia. Qed.

Lemma Forall_ones (P : Q -> Prop) (n : nat) : P 1 -> Forall P (repeat 1 n).
Proof. intros H. induction n; cbn; constructor; assumption. Qed.

Lemma nexafs_defaults_fit (edge : edge_arg) (E : list Q) (ei : edge_arg) :
  nexafs_edge edge = Ok (E, ei) ->
  E <> [] ->
  (List.length (default_ratios Nexafs.ratios_table ei E) + 1
   = List.length E)%nat
  /\ Forall (fun x => 0 < x) (default_ratios Nexafs.ratios_table ei E).
Proof.
  intros HE Hne.
  assert (Hpos : (0 < List.length E)%nat)
    by (destruct E; [contradiction | cbn; lia]).
  assert (Hgeneric :
    match dict_get Nexafs.ratios_table
            ("default " ++ str_of_nat (List.length E)) with
    | Some r => r
    | None => repeat 1 (List.length E - 1)
    end = default_ratios Nexafs.ratios_table ei E ->
    (List.length (default_ratios Nexafs.ratios_table ei E) + 1
     = List.length E)%nat
    /\ Forall (fun x => 0 < x) (default_ratios Nexafs.ratios_table ei E)).
  { intros <-.
    destruct (dict_get Nexafs.ratios_table _) as [r|] eqn:Hd.
    - apply nexafs_default_key. exact Hd.
    - split; [apply length_ones; exact Hpos | apply Forall_ones; reflexivity]. }
  unfold nexafs_edge in HE.
  destruct edge as [s|v|l].
  - destruct (lookup_edge Nexafs.edges (EdgeStr s)) as [[x|x|E'] ei'] eqn:Hl;
      try discriminate HE.
    inversion HE; subst E' ei'.
    destruct (lookup_edge_key _ _ _ _ Hl) as [k [Hk Hd]].
    destruct (nexafs_named_edge k E Hd) as [Hnone _].
    apply Hgeneric. unfold default_ratios. rewrite Hk, Hnone. reflexivity.
  - discriminate HE.
  - cbn in HE. inversion HE; subst. apply Hgeneric. reflexivity.
Qed.

Lemma energies_defaults_fit (edge : edge_arg) (E : list Q) (ei : edge_arg)
    (singleinput : bool) :
  energies_edge edge = Ok (E, ei, singleinput) ->
  E <> [] ->
  (List.length (default_ratios Energies.intervals_table ei E) + 1
   = List.length E)%nat
  /\ Forall (fun x => 0.01 <= x) (default_ratios Energies.intervals_table ei E).
Proof.
  intros HE Hne.
  assert (Hpos : (0 < List.length E)%nat)
    by (destruct E; [contradiction | cbn; lia]).
  assert (Hgeneric :
    match dict_get Energies.intervals_table
            ("default " ++ str_of_nat (List.length E)) with
    | Some r => r
    | None => repeat 1 (List.length E - 1)
    end = default_ratios Energies.intervals_table ei E ->
    (List.length (default_ratios Energies.intervals_table ei E) + 1
     = List.length E)%nat
    /\ Forall (fun x => 0.01 <= x)
         (default_ratios Energies.intervals_table ei E)).
  { intros <-.
    destruct (dict_get Energies.intervals_table _) as [r|] eqn:Hd.
    - apply energies_default_key. exact Hd.
    - split; [apply length_ones; exact Hpos|].
      apply Forall_ones. intros C. discriminate C. }
  unfold energies_edge in HE.
  destruct edge as [s|v|l].
  - destruct (lookup_edge Energies.edges (EdgeStr s)) as [[x|x|E'] ei'] eqn:Hl.
    + pose proof Hl as Hl'. unfold lookup_edge in Hl'.
      destruct (dict_get edge_names (lower s));
        destruct (dict_get Energies.edges _); inversion Hl'; subst;
        discriminate HE.
    + unfold lookup_edge in Hl.
      destruct (dict_get edge_names (lower s));
        destruct (dict_get Energies.edges _); discriminate Hl.
    + destruct (lookup_edge_key _ _ _ _ Hl) as [k [Hk Hd]].
      destruct ei' as [s'|v'|l']; try discriminate Hk.
      cbn in HE. inversion HE; subst E' ei singleinput.
      pose proof (energies_named_edge k E Hd) as Hnamed.
      unfold default_ratios in *. rewrite Hk in *.
      destruct (dict_get Energies.intervals_table k) as [r|];
        [exact Hnamed | apply Hgeneric; reflexivity].
  - cbn in HE. inversion HE; subst. apply Hgeneric. reflexivity.
  - cbn in HE. inversion HE; subst. apply Hgeneric. reflexivity.
Qed.

(** The plan of the speed planner on resolved arguments. *)
Lemma nexafs_returns
    (default_speed : speed_arg) (edge : edge_arg) (speed : option speed_arg)
    (ratios : ratios_arg) (E : list Q) (edge_input : edge_arg) (s : Q)
    (R : list Q) :
  nexafs_edge edge = Ok (E, edge_input) ->
  resolve_speed (or_default speed default_speed) = Ok s ->
  nexafs_ratios ratios edge_input E = Ok R ->
  List.length E = S (List.length R) ->
  Forall (fun r => ~ r * s == 0) R ->
  exists time,
    get_nexafs_scan_params default_speed edge speed ratios
    = Ok (spec_zones E R s, time)
    /\ time == closed_form_duration E R s.
Proof.
  intros HE Hspeed Hratios Hlen HR.
  unfold get_nexafs_scan_params.
  rewrite HE. cbn [bind]. rewrite Hspeed. cbn [bind].
  rewrite Hratios. cbn [bind]. count_matches.
  destruct (nexafs_loop_ok E s R 0 [] 0) as [t [Heq Ht]]; [lia | exact HR|].
  exists t. split.
  - rewrite Heq. cbn [app]. unfold spec_zones.
    rewrite <- (enumerate_map0
      (fun i r => (threshold E i, threshold E (S i), r * s)) 0 R).
    reflexivity.
  - rewrite Ht. unfold closed_form_duration.
    rewrite <- (enumerate_map0 (fun i r => zone_width E i / (r * s)) 0 R).
    ring.
Qed.

Lemma energies_of_no_count_error (E : list Q) (singleinput : bool) (f : Q)
    (R : list Q) :
  List.length E = S (List.length R) ->
  energies_of E singleinput f R <> Raise (ValueError msg_wrong_number).
Proof.
  intros Hlen. unfold energies_of.
  destruct R as [|r R].
  - unfold multiple_of, scale_multiple, py_div.
    cbn [numpnts_loop zeros_like map bind].
    destruct (Qeq_bool f 0); cbn [bind np_mul energies_loop List.length];
      intros H; discriminate H.
  - destruct (multiple_of_total E (r :: R) f) as [m Hm];
      [discriminate | exact Hlen |].
    rewrite Hm. cbn [bind].
    remember (r :: R) as R' eqn:HR'.
    assert (Hstep : forall rest i acc,
      energies_loop E (List.length R') singleinput m i rest acc
      <> Raise (ValueError msg_wrong_number)).
    { induction rest as [|x rest IH]; intros i acc; cbn [energies_loop].
      - intros H. discriminate H.
      - destruct (Qltb x 0.01); [intros H; discriminate H|].
        destruct (np_lt m (Fin 0.01)); [intros H; discriminate H|].
        unfold index.
        destruct (nth_error E i); cbn [bind]; [|intros H; discriminate H].
        destruct (nth_error E (S i)); cbn [bind];
          [|intros H; discriminate H].
        rewrite zone_numpnt_total. cbn [bind]. apply IH. }
    apply Hstep.
Qed.

Lemma resolve_frames_error (frames : frames_arg) (e : exn) :
  resolve_frames frames = Raise e -> e = TypeError msg_invalid_frames.
Proof.
  unfold resolve_frames.
  destruct frames as [s|v|];
    [destruct (dict_get Energies.frames_table (lower s))| |];
    intros H; inversion H; reflexivity.
Qed.

(** X2.  With the weights left out, an edge that resolves to at least one
    threshold always gets weights of the right count.  The speed planner
    then returns a plan for every speed other than zero, and the energy
    generator never raises the error of the count. *)
Theorem omitted_weights_fit
    (default_speed : speed_arg) (default_frames : frames_arg)
    (edge : edge_arg) :
  (forall speed E edge_input s,
      nexafs_edge edge = Ok (E, edge_input) ->
      E <> [] ->
      resolve_speed (or_default speed default_speed) = Ok s ->
      ~ s == 0 ->
      exists zones time,
        get_nexafs_scan_params default_speed edge speed RatiosNone
        = Ok (zones, time)
        /\ (List.length zones + 1 = List.length E)%nat)
  /\ (forall frames E edge_input singleinput,
         energies_edge edge = Ok (E, edge_input, singleinput) ->
         E <> [] ->
         get_energies default_frames edge frames RatiosNone
         <> Raise (ValueError msg_wrong_number)).
Proof.
  split.
  - intros speed E ei s HE Hne Hs Hs0.
    destruct (nexafs_defaults_fit edge E ei HE Hne) as [Hlen Hpos].
    destruct (nexafs_returns default_speed edge speed RatiosNone E ei s
                (default_ratios Nexafs.ratios_table ei E))
      as [t [Heq _]]; try assumption; try reflexivity; try lia.
    + eapply Forall_impl; [|exact Hpos]. intros r Hr Hz. cbn beta in *.
      apply Qmult_integral in Hz. destruct Hz as [Hz|Hz]; [|contradiction].
      rewrite Hz in Hr. exact (Qlt_irrefl _ Hr).
    + exists (spec_zones E (default_ratios Nexafs.ratios_table ei E) s), t.
      split; [exact Heq|].
      unfold spec_zones. rewrite length_map, length_seq. exact Hlen.
  - intros frames E ei si HE Hne.
    destruct (energies_defaults_fit edge E ei si HE Hne) as [Hlen _].
    unfold get_energies. rewrite HE. cbn [bind].
    destruct (resolve_frames _) as [f|e] eqn:Hf; cbn [bind];
      [|apply resolve_frames_error in Hf; subst e; intros H; discriminate H].
    cbn [energies_ratios bind]. count_matches.
    apply energies_of_no_count_error. lia.
Qed.

Lemma omitted_weights_fit_witness :
  (exists zones time,
      get_nexafs_scan_params (SpeedStr "normal")
        (EdgeSeq [270; 280; 282; 284; 286; 288; 290; 300]) None RatiosNone
      = Ok (zones, time)
      /\ (List.length zones + 1 = 8)%nat)
  /\ get_energies (FramesStr "full") (EdgeStr "Ca") None RatiosNone
     <> Raise (ValueError msg_wrong_number).
Proof.
  destruct (omitted_weights_fit (SpeedStr "normal") (FramesStr "full")
              (EdgeSeq [270; 280; 282; 284; 286; 288; 290; 300])) as [Hn _].
  destruct (omitted_weights_fit (SpeedStr "normal") (FramesStr "full")
              (EdgeStr "Ca")) as [_ He].
  split.
  - apply (Hn None [270; 280; 282; 284; 286; 288; 290; 300]
              (EdgeSeq [270; 280; 282; 284; 286; 288; 290; 300]) 0.2).
    + reflexivity.
    + discriminate.
    + reflexivity.
    + intros H. discriminate H.
  - apply (He None [320; 340; 345; 349; 349.5; 352.5; 353; 355; 360; 380]
              (EdgeStr "calcium") false).
    + reflexivity.
    + discriminate.
Defined.

(** ** Names that no table knows *)

(** X3.  A string that is no alias and no key of the table of edges is
    refused as an edge with [TypeError], whatever the other arguments;
    the name of a set of weights is looked up as it is written, and one
    the table does not hold raises [KeyError] once the edge and the speed
    or frame number are resolved. *)
Theorem unknown_names_raise
    (default_speed : speed_arg) (default_frames : frames_arg) (s : string) :
  (dict_get edge_names (lower s) = None ->
   (dict_get Nexafs.edges (lower s) = None ->
    forall speed ratios,
      get_nexafs_scan_params default_speed (EdgeStr s) speed ratios
      = Raise (TypeError msg_invalid_edge))
   /\ (dict_get Energies.edges (lower s) = None ->
       forall frames ratios,
         get_energies default_frames (EdgeStr s) frames ratios
         = Raise (TypeError msg_invalid_edge)))
  /\ (s <> EmptyString ->
      (dict_get Nexafs.ratios_table s = None ->
       forall edge speed E edge_input v,
         nexafs_edge edge = Ok (E, edge_input) ->
         resolve_speed (or_default speed default_speed) = Ok v ->
         get_nexafs_scan_params default_speed edge speed (RatiosStr s)
         = Raise KeyError)
      /\ (dict_get Energies.intervals_table s = None ->
          forall edge frames E edge_input singleinput f,
            energies_edge edge = Ok (E, edge_input, singleinput) ->
            resolve_frames (or_default frames default_frames) = Ok f ->
            get_energies default_frames edge frames (RatiosStr s)
            = Raise KeyError)).
Proof.
  split.
  - intros Halias. split; intros Hedge; intros;
      [unfold get_nexafs_scan_params, nexafs_edge
      |unfold get_energies, energies_edge];
      unfold lookup_edge; rewrite Halias, Hedge; reflexivity.
  - intros Hs. split; intros Hnone; intros.
    + unfold get_nexafs_scan_params.
      rewrite H. cbn [bind]. rewrite H0. cbn [bind].
      destruct s as [|c s]; [contradiction|].
      cbn [nexafs_ratios]. unfold dict_item. rewrite Hnone. reflexivity.
    + unfold get_energies.
      rewrite H. cbn [bind]. rewrite H0. cbn [bind].
      destruct s as [|c s]; [contradiction|].
      cbn [energies_ratios]. unfold dict_item. rewrite Hnone. reflexivity.
Qed.

Lemma unknown_names_raise_witness :
  get_energies (FramesStr "full") (EdgeStr "Boron") None RatiosNone
  = Raise (TypeError msg_invalid_edge)
  /\ get_energies (FramesStr "full") (EdgeStr "carbon") None
       (RatiosStr "Carbon NonAromatic")
     = Raise KeyError.
Proof.
  destruct (unknown_names_raise (SpeedStr "normal") (FramesStr "full") "Boron")
    as [Hedge _].
  destruct (unknown_names_raise (SpeedStr "normal") (FramesStr "full")
              "Carbon NonAromatic") as [_ Hratio].
  split.
  - apply Hedge; reflexivity.
  - destruct Hratio as [_ He]; [discriminate|].
    apply (He eq_refl (EdgeStr "carbon") None
              [250; 270; 282; 287; 292; 305; 350] (EdgeStr "carbon") false 112);
      reflexivity.
Defined.

(** ** The zones of the speed planner *)

Lemma index_inv {A : Type} (l : list A) (i : nat) (d a : A) :
  index l i = Ok a -> a = nth i l d /\ (i < List.length l)%nat.
Proof.
  unfold index. destruct (nth_error l i) eqn:E; intros H; inversion H; subst.
  split.
  - symmetry. apply nth_error_nth. exact E.
  - apply nth_error_Some. rewrite E. discriminate.
Qed.

(** What a loop that returns has computed. *)
Lemma nexafs_loop_inv (E : list Q) (s : Q) :
  forall (rest : list Q) (i : nat) (acc : list zone) (t : Q) zones time,
    nexafs_loop E s i rest acc t = Ok (zones, time) ->
    zones = acc ++ map (fun p => (threshold E (fst p), threshold E (S (fst p)),
                                  snd p * s))
                       (combine (seq i (List.length rest)) rest)
    /\ time == t + fold_right Qplus 0
                     (map (fun p => zone_width E (fst p) / (snd p * s))
                          (combine (seq i (List.length rest)) rest))
    /\ Forall (fun r => ~ r * s == 0) rest
    /\ (rest <> [] -> (i + List.length rest < List.length E)%nat).
Proof.
  induction rest as [|r rest IH]; intros i acc t zones time H;
    cbn [nexafs_loop] in H.
  - inversion H; subst. cbn. rewrite app_nil_r.
    repeat split; [ring | constructor | intros C; contradiction].
  - destruct (index E i) as [e0|] eqn:H0; cbn [bind] in H; [|discriminate H].
    destruct (index E (S i)) as [e1|] eqn:H1; cbn [bind] in H;
      [|discriminate H].
    apply (index_inv _ _ 0) in H0. apply (index_inv _ _ 0) in H1.
    destruct H0 as [-> _]. destruct H1 as [-> Hi].
    unfold py_div in H.
    destruct (Qeq_bool (r * s) 0) eqn:Hz; cbn [bind] in H; [discriminate H|].
    apply IH in H. destruct H as [Hzones [Htime [Hnz Hlen]]].
    repeat split.
    + rewrite Hzones, <- app_assoc. reflexivity.
    + rewrite Htime. cbn [List.length seq combine map fold_right fst snd].
      unfold zone_width, threshold. ring.
    + constructor; [|exact Hnz]. apply Qeq_bool_neq. exact Hz.
    + intros _. cbn [List.length].
      destruct rest as [|r' rest]; [cbn; lia|].
      specialize (Hlen ltac:(discriminate)). cbn [List.length] in *. lia.
Qed.

Lemma get_nexafs_inv
    (default_speed : speed_arg) (edge : edge_arg) (speed : option speed_arg)
    (ratios : ratios_arg) (zones : list zone) (time : Q) :
  get_nexafs_scan_params default_speed edge speed ratios = Ok (zones, time) ->
  exists E edge_input s R,
    nexafs_edge edge = Ok (E, edge_input)
    /\ resolve_speed (or_default speed default_speed) = Ok s
    /\ nexafs_ratios ratios edge_input E = Ok R
    /\ List.length E = S (List.length R)
    /\ Forall (fun r => ~ r * s == 0) R
    /\ zones = spec_zones E R s
    /\ time == closed_form_duration E R s.
Proof.
  unfold get_nexafs_scan_params. intros H.
  destruct (nexafs_edge edge) as [[E ei]|] eqn:HE; cbn [bind] in H;
    [|discriminate H].
  destruct (resolve_speed _) as [s|] eqn:Hs; cbn [bind] in H;
    [|discriminate H].
  destruct (nexafs_ratios ratios ei E) as [R|] eqn:HR; cbn [bind] in H;
    [|discriminate H].
  destruct (List.length R + 1 =? List.length E)%nat eqn:Hlen;
    cbn [negb] in H; [|discriminate H].
  apply Nat.eqb_eq in Hlen.
  apply nexafs_loop_inv in H. destruct H as [Hz [Ht [Hnz _]]].
  exists E, ei, s, R. repeat split; try assumption; try lia.
  - rewrite Hz. cbn [app]. unfold spec_zones.
    rewrite <- (enumerate_map0
      (fun i r => (threshold E i, threshold E (S i), r * s)) 0 R).
    reflexivity.
  - rewrite Ht. unfold closed_form_duration.
    rewrite <- (enumerate_map0 (fun i r => zone_width E i / (r * s)) 0 R).
    ring.
Qed.

Lemma contiguous_from (E : list Q) (f : nat -> Q) :
  forall n i,
    contiguous (map (fun k => (threshold E k, threshold E (S k), f k))
                    (seq i n)).
Proof.
  induction n as [|n IH]; intros i; [exact I|].
  cbn [seq map]. destruct n as [|n]; [exact I|].
  specialize (IH (S i)). cbn [seq map] in *. split; [reflexivity | exact IH].
Qed.

Lemma starts_removelast (E : list Q) :
  map (fun i => nth i E 0) (seq 0 (List.length E - 1)) = removelast E.
Proof.
  induction E as [|e E IH]; [reflexivity|].
  destruct E as [|e' E]; [reflexivity|].
  cbn [List.length Nat.sub] in *. rewrite Nat.sub_0_r in *.
  change (removelast (e :: e' :: E)) with (e :: removelast (e' :: E)).
  rewrite <- IH. cbn [seq map nth]. f_equal.
  rewrite <- seq_shift, map_map. reflexivity.
Qed.

Lemma stops_tl (E : list Q) :
  map (fun i => nth (S i) E 0) (seq 0 (List.length E - 1)) = tl E.
Proof.
  destruct E as [|e E]; [reflexivity|].
  cbn [List.length Nat.sub tl nth]. rewrite Nat.sub_0_r.
  clear e. induction E as [|e E IH]; [reflexivity|].
  cbn [List.length seq map nth]. f_equal.
  rewrite <- seq_shift, map_map. exact IH.
Qed.

(** X4.  The zones of a plan follow one another without gap or overlap:
    their starts are the thresholds of the edge but the last, their ends
    the thresholds but the first, in order. *)
Theorem nexafs_zones_contiguous
    (default_speed : speed_arg) (edge : edge_arg) (speed : option speed_arg)
    (ratios : ratios_arg) (zones : list zone) (time : Q) :
  get_nexafs_scan_params default_speed edge speed ratios = Ok (zones, time) ->
  contiguous zones
  /\ exists E edge_input,
      nexafs_edge edge = Ok (E, edge_input)
      /\ map zone_start zones = removelast E
      /\ map zone_stop zones = tl E.
Proof.
  intros H. apply get_nexafs_inv in H.
  destruct H as [E [ei [s [R [HE [_ [_ [Hlen [_ [Hz _]]]]]]]]]].
  subst zones. unfold spec_zones. split.
  - apply (contiguous_from E (fun i => nth i R 0 * s)).
  - exists E, ei. split; [exact HE|].
    rewrite !map_map. cbn [zone_start zone_stop fst snd].
    replace (List.length R) with (List.length E - 1)%nat by lia.
    split; [apply starts_removelast | apply stops_tl].
Qed.

Lemma nexafs_zones_contiguous_witness :
  contiguous [(250, 282, 5 * 0.2); (282, 297, 1 * 0.2); (297, 350, 5 * 0.2)]
  /\ exists E edge_input,
      nexafs_edge (EdgeStr "carbon") = Ok (E, edge_input)
      /\ map zone_start
           [(250, 282, 5 * 0.2); (282, 297, 1 * 0.2); (297, 350, 5 * 0.2)]
         = removelast E
      /\ map zone_stop
           [(250, 282, 5 * 0.2); (282, 297, 1 * 0.2); (297, 350, 5 * 0.2)]
         = tl E.
Proof.
  apply (nexafs_zones_contiguous (SpeedStr "normal") (EdgeStr "carbon") None
           RatiosNone _
           (0 + Qabs (282 - 250) / (5 * 0.2) + Qabs (297 - 282) / (1 * 0.2)
            + Qabs (350 - 297) / (5 * 0.2))).
  reflexivity.
Defined.

(** ** The duration of the speed planner *)

Lemma sum_nonneg (l : list Q) :
  Forall (fun x => 0 <= x) l -> 0 <= fold_right Qplus 0 l.
Proof.
  induction 1 as [|x l Hx _ IH]; cbn [fold_right]; [apply Qle_refl|].
  lra.
Qed.

Lemma Qdiv_nonneg (a b : Q) : 0 <= a -> 0 < b -> 0 <= a / b.
Proof.
  intros Ha Hb. unfold Qdiv. apply Qmult_le_0_compat; [exact Ha|].
  apply Qlt_le_weak, Qinv_lt_0_compat. exact Hb.
Qed.

(** X5.  The duration a plan comes with is the duration of its zones: the
    sum, over the zones returned, of the width of the zone over its rate;
    it is not negative when the rates are positive. *)
Theorem nexafs_time_of_zones
    (default_speed : speed_arg) (edge : edge_arg) (speed : option speed_arg)
    (ratios : ratios_arg) (zones : list zone) (time : Q) :
  get_nexafs_scan_params default_speed edge speed ratios = Ok (zones, time) ->
  time == fold_right Qplus 0
            (map (fun z => Qabs (zone_stop z - zone_start z) / zone_rate z)
                 zones)
  /\ (Forall (fun z => 0 < zone_rate z) zones -> 0 <= time).
Proof.
  intros H. apply get_nexafs_inv in H.
  destruct H as [E [ei [s [R [_ [_ [_ [_ [_ [Hz Ht]]]]]]]]]].
  assert (Hsum :
    time == fold_right Qplus 0
              (map (fun z => Qabs (zone_stop z - zone_start z) / zone_rate z)
                   zones)).
  { rewrite Ht, Hz. unfold closed_form_duration, spec_zones.
    rewrite map_map. reflexivity. }
  split; [exact Hsum|].
  intros Hpos. rewrite Hsum. apply sum_nonneg.
  apply Forall_forall. intros x Hx. apply in_map_iff in Hx.
  destruct Hx as [z [<- Hin]].
  rewrite Forall_forall in Hpos.
  apply Qdiv_nonneg; [apply Qabs_nonneg | apply Hpos; exact Hin].
Qed.

Lemma nexafs_time_of_zones_witness :
  0 + Qabs (260 - 250) / (2 * 0.5) + Qabs (255 - 260) / (1 * 0.5)
  == fold_right Qplus 0
       (map (fun z => Qabs (zone_stop z - zone_start z) / zone_rate z)
            [(250, 260, 2 * 0.5); (260, 255, 1 * 0.5)])
  /\ (Forall (fun z => 0 < zone_rate z)
        [(250, 260, 2 * 0.5); (260, 255, 1 * 0.5)] ->
      0 <= 0 + Qabs (260 - 250) / (2 * 0.5) + Qabs (255 - 260) / (1 * 0.5)).
Proof.
  apply (nexafs_time_of_zones (SpeedStr "normal") (EdgeSeq [250; 260; 255])
           (Some (SpeedStr "fast")) (RatiosSeq [2; 1])).
  reflexivity.
Defined.

Lemma duration_scaling (E : list Q) (s k : Q) (idx : list nat) (R : list Q) :
  ~ k == 0 ->
  (forall i, In i idx -> ~ nth i R 0 * s == 0) ->
  fold_right Qplus 0
    (map (fun i => zone_width E i / (nth i R 0 * (k * s))) idx)
  == fold_right Qplus 0
       (map (fun i => zone_width E i / (nth i R 0 * s)) idx) / k.
Proof.
  intros Hk. induction idx as [|i idx IH]; intros Hnz; cbn [map fold_right].
  - field. exact Hk.
  - rewrite IH by (intros j Hj; apply Hnz; right; exact Hj).
    assert (Hi : ~ nth i R 0 * s == 0) by (apply Hnz; left; reflexivity).
    assert (Hr : ~ nth i R 0 == 0)
      by (intros C; apply Hi; rewrite C; ring).
    assert (Hs : ~ s == 0) by (intros C; apply Hi; rewrite C; ring).
    field. repeat split; assumption.
Qed.

(** X6.  The duration is inversely proportional to the speed: with the
    speed multiplied by [k], the planner returns the same zones at [k]
    times the rates, and the duration divided by [k]. *)
Theorem nexafs_speed_scaling
    (default_speed : speed_arg) (edge : edge_arg) (ratios : ratios_arg)
    (s k : Q) (zones : list zone) (time : Q) :
  get_nexafs_scan_params default_speed edge (Some (SpeedNum s)) ratios
  = Ok (zones, time) ->
  ~ k == 0 ->
  exists zones' time',
    get_nexafs_scan_params default_speed edge (Some (SpeedNum (k * s))) ratios
    = Ok (zones', time')
    /\ time' == time / k
    /\ map zone_start zones' = map zone_start zones
    /\ map zone_stop zones' = map zone_stop zones
    /\ Forall2 (fun z z' => zone_rate z' == k * zone_rate z) zones zones'.
Proof.
  intros H Hk. apply get_nexafs_inv in H.
  destruct H as [E [ei [s0 [R [HE [Hs [HR [Hlen [Hnz [Hz Ht]]]]]]]]]].
  cbn in Hs. inversion Hs; subst s0.
  destruct (nexafs_returns default_speed edge (Some (SpeedNum (k * s))) ratios
              E ei (k * s) R) as [t' [Heq Ht']];
    try assumption; try reflexivity.
  { eapply Forall_impl; [|exact Hnz]. intros r Hr C. cbn beta in *.
    apply Hr. apply Qmult_integral in C. destruct C as [C|C].
    - rewrite C. ring.
    - apply Qmult_integral in C. destruct C as [C|C]; [contradiction|].
      rewrite C. ring. }
  exists (spec_zones E R (k * s)), t'. split; [exact Heq|].
  subst zones. unfold spec_zones. rewrite !map_map.
  cbn [zone_start zone_stop zone_rate fst snd]. repeat split.
  - rewrite Ht', Ht. unfold closed_form_duration.
    apply duration_scaling; [exact Hk|].
    intros i Hi. apply in_seq in Hi.
    rewrite Forall_forall in Hnz. apply Hnz, nth_In. lia.
  - induction (seq 0 (List.length R)) as [|i l IH]; cbn [map];
      constructor; [cbn [zone_rate snd]; ring | exact IH].
Qed.

Lemma nexafs_speed_scaling_witness :
  exists zones' time',
    get_nexafs_scan_params (SpeedStr "normal") (EdgeStr "oxygen")
      (Some (SpeedNum (2 * 0.1))) RatiosNone
    = Ok (zones', time')
    /\ time' == (0 + Qabs (525 - 500) / (5 * 0.1) + Qabs (540 - 525) / (1 * 0.1)
                 + Qabs (560 - 540) / (5 * 0.1)) / 2
    /\ map zone_start zones'
       = map zone_start
           [(500, 525, 5 * 0.1); (525, 540, 1 * 0.1); (540, 560, 5 * 0.1)]
    /\ map zone_stop zones'
       = map zone_stop
           [(500, 525, 5 * 0.1); (525, 540, 1 * 0.1); (540, 560, 5 * 0.1)]
    /\ Forall2 (fun z z' => zone_rate z' == 2 * zone_rate z)
         [(500, 525, 5 * 0.1); (525, 540, 1 * 0.1); (540, 560, 5 * 0.1)]
         zones'.
Proof.
  apply (nexafs_speed_scaling (SpeedStr "normal") (EdgeStr "oxygen")
           RatiosNone 0.1 2).
  - reflexivity.
  - intros H. discriminate H.
Defined.

(** ** Rounding to the grid *)

Lemma rint_bounds (x : Q) :
  inject_Z (rint x) - x <= 1 # 2 /\ x - inject_Z (rint x) <= 1 # 2.
Proof.
  unfold rint.
  pose proof (Qfloor_le x) as Hlo. pose proof (Qlt_floor x) as Hhi.
  rewrite inject_Z_plus in Hhi. change (inject_Z 1) with 1 in Hhi.
  destruct (Qcompare_spec (x - inject_Z (Qfloor x)) (1 # 2)) as [H|H|H];
    [destruct (Z.even (Qfloor x))| |];
    rewrite ?inject_Z_plus; change (inject_Z 1) with 1.
  all: lra.
Qed.

Lemma rint_mono (x y : Q) : x <= y -> (rint x <= rint y)%Z.
Proof.
  intros Hxy. unfold rint.
  pose proof (Qfloor_resp_le _ _ Hxy) as Hf.
  remember (Qfloor x) as fx eqn:Hfx. remember (Qfloor y) as fy eqn:Hfy.
  clear Hfx Hfy.
  destruct (Qcompare_spec (x - inject_Z fx) (1 # 2)) as [Hx|Hx|Hx];
    destruct (Qcompare_spec (y - inject_Z fy) (1 # 2)) as [Hy|Hy|Hy];
    try destruct (Z.even fx) eqn:Ex; try destruct (Z.even fy) eqn:Ey;
    try lia;
    (destruct (Z.eq_dec fx fy) as [Heq|Hne]; [exfalso; subst fy|lia]);
    try congruence; lra.
Qed.

Lemma round_point_mono (x y : Q) : x <= y -> round_point x <= round_point y.
Proof.
  intros Hxy. unfold round_point, np_around1.
  assert (H : x * 2 * 10 <= y * 2 * 10) by lra.
  apply rint_mono in H. rewrite Zle_Qle in H.
  unfold Qdiv. repeat apply Qmult_le_compat_r; try exact H; discriminate.
Qed.

Lemma round_point_error (x : Q) :
  - (0.025) <= round_point x - x /\ round_point x - x <= 0.025.
Proof.
  rewrite round_point_grid.
  destruct (rint_bounds (x * 2 * 10)) as [H1 H2]. lra.
Qed.

Lemma round_point_on_grid (x : Q) : on_grid x -> round_point x == x.
Proof.
  intros [k Hk]. rewrite round_point_grid.
  assert (H : x * 2 * 10 == inject_Z k) by (rewrite Hk; field).
  rewrite (rint_comp _ _ H), rint_Z, Hk. reflexivity.
Qed.

(** ** The energy list on resolved arguments *)

Lemma get_energies_points
    (default_frames : frames_arg) (edge : edge_arg)
    (frames : option frames_arg) (ratios : ratios_arg)
    (E : list Q) (edge_input : edge_arg) (ft : Q) (R : list Q) :
  energies_edge edge = Ok (E, edge_input, false) ->
  resolve_frames (or_default frames default_frames) = Ok ft ->
  energies_ratios ratios edge_input E = Ok R ->
  List.length E = S (List.length R) ->
  Forall (fun r => 0.01 <= r) R ->
  ~ ft == 0 ->
  0.01 <= scale_factor E R ft ->
  get_energies default_frames edge frames ratios = Ok (spec_energies E R ft).
Proof.
  intros HE Hframes Hratios Hlen HR Hft Hscale.
  rewrite (get_energies_resolved _ _ _ _ _ _ _ _ _ HE Hframes Hratios Hlen).
  assert (HR0 : Forall (fun r => ~ r == 0) R).
  { eapply Forall_impl; [|exact HR]. intros r Hr H0. cbn in Hr.
    rewrite H0 in Hr. apply Hr. reflexivity. }
  destruct (multiple_finite E R ft Hlen HR0 Hft) as [q [Hq Hqs]].
  unfold energies_of. rewrite Hq. cbn [bind].
  rewrite energies_loop_ok.
  - cbn [app]. f_equal. unfold spec_energies.
    rewrite !flat_map_concat_map. f_equal.
    rewrite (enumerate_map0 (segment E (List.length R) false (Fin q)) 0 R).
    apply map_ext. intros i. apply segment_zone_points. exact Hqs.
  - lia.
  - exact HR.
  - cbn [np_lt]. apply Qltb_false. rewrite Hqs. exact Hscale.
Qed.

Lemma threshold_in_energies (E R : list Q) (ft : Q) (j : nat) :
  R <> [] ->
  (j <= List.length R)%nat ->
  In (round_point (threshold E j)) (spec_energies E R ft).
Proof.
  intros Hne Hj. unfold spec_energies. apply in_flat_map.
  destruct (Nat.eq_dec j (List.length R)) as [Hjn|Hjn].
  - destruct j as [|j]; [destruct R; [contradiction | discriminate Hjn]|].
    exists j. split; [apply in_seq; lia|].
    apply zone_points_last. unfold is_final. apply Nat.eqb_eq. exact Hjn.
  - exists j. split; [apply in_seq; lia|].
    rewrite <- (zone_points_first E R ft j).
    apply nth_In. rewrite zone_points_length.
    pose proof (zone_count_pos E R ft j). lia.
Qed.

(** X7.  Every threshold of the edge is sampled to within 0.025: the list
    holds a value at most 0.025 away from it, and equal to it when the
    threshold is a multiple of 0.05. *)
Theorem thresholds_sampled
    (default_frames : frames_arg) (edge : edge_arg)
    (frames : option frames_arg) (ratios : ratios_arg)
    (E : list Q) (edge_input : edge_arg) (ft : Q) (R : list Q) :
  energies_edge edge = Ok (E, edge_input, false) ->
  resolve_frames (or_default frames default_frames) = Ok ft ->
  energies_ratios ratios edge_input E = Ok R ->
  R <> [] ->
  List.length E = S (List.length R) ->
  Forall (fun r => 0.01 <= r) R ->
  ~ ft == 0 ->
  0.01 <= scale_factor E R ft ->
  exists energies,
    get_energies default_frames edge frames ratios = Ok energies
    /\ forall e0,
        In e0 E ->
        exists e,
          In e energies
          /\ - (0.025) <= e - e0 /\ e - e0 <= 0.025
          /\ (on_grid e0 -> e == e0).
Proof.
  intros HE Hframes Hratios Hne Hlen HR Hft Hscale.
  exists (spec_energies E R ft). split.
  - apply (get_energies_points _ _ _ _ E edge_input ft R); assumption.
  - intros e0 Hin. apply (In_nth _ _ 0) in Hin.
    destruct Hin as [j [Hj <-]].
    exists (round_point (threshold E j)). split.
    + apply threshold_in_energies; [exact Hne | lia].
    + destruct (round_point_error (threshold E j)) as [H1 H2].
      unfold threshold in *. repeat split; try assumption.
      apply round_point_on_grid.
Qed.

Lemma thresholds_sampled_witness :
  exists energies,
    get_energies (FramesStr "full") (EdgeSeq [250.02; 260; 270.33])
      (Some (FramesNum 10)) RatiosNone = Ok energies
    /\ forall e0,
        In e0 [250.02; 260; 270.33] ->
        exists e,
          In e energies
          /\ - (0.025) <= e - e0 /\ e - e0 <= 0.025
          /\ (on_grid e0 -> e == e0).
Proof.
  apply (thresholds_sampled (FramesStr "full") (EdgeSeq [250.02; 260; 270.33])
           (Some (FramesNum 10)) RatiosNone [250.02; 260; 270.33]
           (EdgeSeq [250.02; 260; 270.33]) 10 [2; 0.2]).
  - reflexivity.
  - reflexivity.
  - reflexivity.
  - discriminate.
  - reflexivity.
  - repeat constructor; intros H; discriminate H.
  - intros H. discriminate H.
  - intros H. discriminate H.
Defined.

(** ** The length of the energy list *)








(** ** Where the energies lie *)

(** A point of a zone from [a] to [b], at [k] steps out of [c]. *)
Lemma raw_point_between (a b : Q) (k c : nat) :
  (k <= c)%nat -> (0 < c)%nat ->
  let p := a + inject_Z (Z.of_nat k) * ((b - a) / inject_Z (Z.of_nat c)) in
  (a <= b -> a <= p /\ p <= b) /\ (b <= a -> b <= p /\ p <= a).
Proof.
  intros Hk Hc p.
  assert (Hcq : 0 < inject_Z (Z.of_nat c)).
  { change 0 with (inject_Z 0). rewrite <- Zlt_Qlt. lia. }
  set (t := inject_Z (Z.of_nat k) / inject_Z (Z.of_nat c)).
  assert (Ht0 : 0 <= t).
  { apply Qdiv_nonneg; [|exact Hcq].
    change 0 with (inject_Z 0). rewrite <- Zle_Qle. lia. }
  assert (Ht1 : t <= 1).
  { apply Qle_shift_div_r; [exact Hcq|]. rewrite Qmult_1_l.
    rewrite <- Zle_Qle. lia. }
  assert (Hp : p == a + t * (b - a)).
  { unfold p, t. field. intros C. rewrite C in Hcq. exact (Qlt_irrefl _ Hcq). }
  split; intros Hab.
  - assert (H1 : 0 <= t * (b - a))
      by (apply Qmult_le_0_compat; [exact Ht0 | lra]).
    assert (H2 : 0 <= (1 - t) * (b - a))
      by (apply Qmult_le_0_compat; lra).
    rewrite Hp. split; lra.
  - assert (H1 : 0 <= t * (a - b))
      by (apply Qmult_le_0_compat; [exact Ht0 | lra]).
    assert (H2 : 0 <= (1 - t) * (a - b))
      by (apply Qmult_le_0_compat; lra).
    rewrite Hp. split; lra.
Qed.

Lemma zone_points_within (E R : list Q) (ft : Q) (i : nat) (e : Q) :
  In e (zone_points E R ft i) ->
  within_zone (threshold E i) (threshold E (S i)) e.
Proof.
  unfold zone_points. intros Hin. apply in_map_iff in Hin.
  destruct Hin as [k [<- Hk]]. apply in_seq in Hk.
  pose proof (zone_count_pos E R ft i) as Hpos.
  set (c := Z.to_nat (zone_count E R ft i)) in *.
  assert (Hkc : (k <= c)%nat) by (destruct (is_final R i); lia).
  assert (Hc : (0 < c)%nat) by lia.
  destruct (raw_point_between (threshold E i) (threshold E (S i)) k c Hkc Hc)
    as [Hup Hdown].
  split; intros Hab;
    [destruct (Hup Hab) | destruct (Hdown Hab)];
    split; apply round_point_mono; assumption.
Qed.

(** X9.  No energy leaves its zone: every value of the list lies between
    the rounded thresholds of one zone of the edge, whether the zone goes
    up or down. *)
Theorem energies_within_zones
    (default_frames : frames_arg) (edge : edge_arg)
    (frames : option frames_arg) (ratios : ratios_arg)
    (E : list Q) (edge_input : edge_arg) (ft : Q) (R : list Q) :
  energies_edge edge = Ok (E, edge_input, false) ->
  resolve_frames (or_default frames default_frames) = Ok ft ->
  energies_ratios ratios edge_input E = Ok R ->
  List.length E = S (List.length R) ->
  Forall (fun r => 0.01 <= r) R ->
  ~ ft == 0 ->
  0.01 <= scale_factor E R ft ->
  exists energies,
    get_energies default_frames edge frames ratios = Ok energies
    /\ forall e,
        In e energies ->
        exists i,
          (i < List.length R)%nat
          /\ within_zone (threshold E i) (threshold E (S i)) e.
Proof.
  intros HE Hframes Hratios Hlen HR Hft Hscale.
  exists (spec_energies E R ft). split.
  - apply (get_energies_points _ _ _ _ E edge_input ft R); assumption.
  - intros e Hin. unfold spec_energies in Hin. apply in_flat_map in Hin.
    destruct Hin as [i [Hi He]]. apply in_seq in Hi.
    exists i. split; [lia | exact (zone_points_within _ _ _ _ _ He)].
Qed.

Lemma energies_within_zones_witness :
  exists energies,
    get_energies (FramesStr "full") (EdgeSeq [290; 280; 285])
      (Some (FramesNum 20)) (RatiosSeq [1; 0.5]) = Ok energies
    /\ forall e,
        In e energies ->
        exists i,
          (i < 2)%nat
          /\ within_zone (threshold [290; 280; 285] i)
               (threshold [290; 280; 285] (S i)) e.
Proof.
  apply (energies_within_zones (FramesStr "full") (EdgeSeq [290; 280; 285])
           (Some (FramesNum 20)) (RatiosSeq [1; 0.5]) [290; 280; 285]
           (EdgeSeq [290; 280; 285]) 20 [1; 0.5]).
  - reflexivity.
  - reflexivity.
  - reflexivity.
  - reflexivity.
  - repeat constructor; intros H; discriminate H.
  - intros H. discriminate H.
  - intros H. discriminate H.
Defined.

(** ** The order of the energies *)

Lemma StronglySorted_app {A : Type} (R : A -> A -> Prop) (l1 l2 : list A) :
  StronglySorted R l1 ->
  StronglySorted R l2 ->
  (forall x y, In x l1 -> In y l2 -> R x y) ->
  StronglySorted R (l1 ++ l2).
Proof.
  intros H1 H2 Hcross. induction H1 as [|a l1 Hl1 IH Ha]; [exact H2|].
  cbn [app]. constructor.
  - apply IH. intros x y Hx Hy. apply Hcross; [right; exact Hx | exact Hy].
  - apply Forall_app. split; [exact Ha|].
    apply Forall_forall. intros y Hy. apply Hcross; [left; reflexivity | exact Hy].
Qed.

Lemma StronglySorted_map_seq (g : nat -> Q) :
  (forall k k', (k <= k')%nat -> g k <= g k') ->
  forall n i, StronglySorted Qle (map g (seq i n)).
Proof.
  intros Hg. induction n as [|n IH]; intros i; cbn [seq map]; constructor.
  - apply IH.
  - apply Forall_forall. intros y Hy. apply in_map_iff in Hy.
    destruct Hy as [k [<- Hk]]. apply in_seq in Hk. apply Hg. lia.
Qed.

Lemma zone_points_sorted (E R : list Q) (ft : Q) (i : nat) :
  threshold E i <= threshold E (S i) ->
  StronglySorted Qle (zone_points E R ft i).
Proof.
  intros Hab. unfold zone_points. apply StronglySorted_map_seq.
  intros k k' Hk. apply round_point_mono.
  pose proof (zone_count_pos E R ft i) as Hpos.
  set (c := Z.to_nat (zone_count E R ft i)).
  assert (Hc : 0 < inject_Z (Z.of_nat c)).
  { change 0 with (inject_Z 0). rewrite <- Zlt_Qlt. unfold c. lia. }
  assert (Hsp : 0 <= (threshold E (S i) - threshold E i) / inject_Z (Z.of_nat c))
    by (apply Qdiv_nonneg; [lra | exact Hc]).
  assert (Hkk : inject_Z (Z.of_nat k) <= inject_Z (Z.of_nat k'))
    by (rewrite <- Zle_Qle; lia).
  apply Qplus_le_r. apply Qmult_le_compat_r; assumption.
Qed.

Lemma spec_energies_sorted (E R : list Q) (ft : Q) :
  (forall i, (i < List.length R)%nat -> threshold E i <= threshold E (S i)) ->
  forall m i,
    (i + m <= List.length R)%nat ->
    StronglySorted Qle (flat_map (zone_points E R ft) (seq i m))
    /\ forall e,
        In e (flat_map (zone_points E R ft) (seq i m)) ->
        round_point (threshold E i) <= e
        /\ e <= round_point (threshold E (i + m)).
Proof.
  intros Hup. induction m as [|m IH]; intros i Him.
  - cbn. split; [constructor | intros e []].
  - cbn [seq flat_map].
    destruct (IH (S i)) as [Hsorted Hlow]; [lia|].
    assert (Hi : threshold E i <= threshold E (S i)) by (apply Hup; lia).
    assert (Hrest : round_point (threshold E (S i))
                    <= round_point (threshold E (S i + m))).
    { clear -Hup Him. induction m as [|m IHm].
      - rewrite Nat.add_0_r. apply Qle_refl.
      - eapply Qle_trans; [apply IHm; lia|].
        apply round_point_mono.
        replace (S i + S m)%nat with (S (S i + m)) by lia.
        apply Hup. lia. }
    assert (Hzone : forall e, In e (zone_points E R ft i) ->
              round_point (threshold E i) <= e
              /\ e <= round_point (threshold E (S i))).
    { intros e He. destruct (zone_points_within _ _ _ _ _ He) as [H _].
      apply H. exact Hi. }
    split.
    + apply StronglySorted_app;
        [apply zone_points_sorted; exact Hi | exact Hsorted|].
      intros x y Hx Hy. destruct (Hzone x Hx) as [_ Hx'].
      destruct (Hlow y Hy) as [Hy' _]. eapply Qle_trans; eassumption.
    + intros e He. apply in_app_or in He.
      replace (i + S m)%nat with (S i + m)%nat by lia.
      destruct He as [He|He].
      * destruct (Hzone e He) as [H1 H2]. split; [exact H1|].
        eapply Qle_trans; eassumption.
      * destruct (Hlow e He) as [H1 H2]. split; [|exact H2].
        eapply Qle_trans; [|exact H1].
        apply round_point_mono. exact Hi.
Qed.

(** X10.  On thresholds that do not go down, the energies do not go down
    either: every value of the list is at most any value after it, and
    all lie between the rounded first and last threshold. *)
Theorem energies_sorted
    (default_frames : frames_arg) (edge : edge_arg)
    (frames : option frames_arg) (ratios : ratios_arg)
    (E : list Q) (edge_input : edge_arg) (ft : Q) (R : list Q) :
  energies_edge edge = Ok (E, edge_input, false) ->
  resolve_frames (or_default frames default_frames) = Ok ft ->
  energies_ratios ratios edge_input E = Ok R ->
  List.length E = S (List.length R) ->
  Forall (fun r => 0.01 <= r) R ->
  ~ ft == 0 ->
  0.01 <= scale_factor E R ft ->
  (forall i, (i < List.length R)%nat -> threshold E i <= threshold E (S i)) ->
  exists energies,
    get_energies default_frames edge frames ratios = Ok energies
    /\ StronglySorted Qle energies
    /\ forall e,
        In e energies ->
        round_point (threshold E 0) <= e
        /\ e <= round_point (threshold E (List.length R)).
Proof.
  intros HE Hframes Hratios Hlen HR Hft Hscale Hup.
  exists (spec_energies E R ft). split.
  - apply (get_energies_points _ _ _ _ E edge_input ft R); assumption.
  - apply (spec_energies_sorted E R ft Hup (List.length R) 0). lia.
Qed.

Lemma energies_sorted_witness :
  exists energies,
    get_energies (FramesStr "full") (EdgeStr "Nitrogen") None RatiosNone
    = Ok energies
    /\ StronglySorted Qle energies
    /\ forall e,
        In e energies ->
        round_point (threshold [380; 397; 407; 440] 0) <= e
        /\ e <= round_point (threshold [380; 397; 407; 440] 3).
Proof.
  apply (energies_sorted (FramesStr "full") (EdgeStr "Nitrogen") None
           RatiosNone [380; 397; 407; 440] (EdgeStr "Nitrogen") 112
           [2; 0.2; 2]).
  - reflexivity.
  - reflexivity.
  - reflexivity.
  - reflexivity.
  - repeat constructor; intros H; discriminate H.
  - intros H. discriminate H.
  - intros H. vm_compute in H. discriminate H.
  - intros i Hi.
    destruct i as [|[|[|i]]]; [| | |cbn in Hi; lia];
      intros H; discriminate H.
Defined.

(** ** Edges of one threshold or none *)

(** X11.  A sequence of one threshold has no zone: both planners return an
    empty plan for it rather than an error (the energy generator on a
    frame number other than zero), while the empty sequence fails the
    check of the count. *)
Theorem degenerate_edges
    (default_speed : speed_arg) (default_frames : frames_arg) (e : Q) :
  (forall speed s,
      resolve_speed (or_default speed default_speed) = Ok s ->
      get_nexafs_scan_params default_speed (EdgeSeq [e]) speed RatiosNone
      = Ok ([], 0)
      /\ get_nexafs_scan_params default_speed (EdgeSeq []) speed RatiosNone
         = Raise (ValueError msg_wrong_number))
  /\ (forall frames f,
         resolve_frames (or_default frames default_frames) = Ok f ->
         (~ f == 0 ->
          get_energies default_frames (EdgeSeq [e]) frames RatiosNone = Ok [])
         /\ (f == 0 ->
             get_energies default_frames (EdgeSeq [e]) frames RatiosNone
             = Raise ZeroDivisionError)
         /\ get_energies default_frames (EdgeSeq []) frames RatiosNone
            = Raise (ValueError msg_wrong_number)).
Proof.
  split.
  - intros speed s Hs. unfold get_nexafs_scan_params.
    cbn [nexafs_edge lookup_edge bind]. rewrite Hs. split; reflexivity.
  - intros frames f Hf. unfold get_energies.
    cbn [energies_edge lookup_edge bind]. rewrite Hf. cbn [bind].
    change (energies_ratios RatiosNone (EdgeSeq [e]) [e]) with (Ok (@nil Q)).
    change (energies_ratios RatiosNone (EdgeSeq []) []) with (Ok (@nil Q)).
    cbn [bind List.length Nat.add Nat.eqb negb].
    unfold energies_of, multiple_of, scale_multiple, py_div.
    cbn [numpnts_loop zeros_like map bind].
    repeat split.
    + intros Hf0. destruct (Qeq_bool f 0) eqn:Ef;
        [apply Qeq_bool_eq in Ef; contradiction | reflexivity].
    + intros Hf0. rewrite (Qeq_eq_bool _ _ Hf0). reflexivity.
Qed.

Lemma degenerate_edges_witness :
  get_energies (FramesStr "full") (EdgeSeq [285]) None RatiosNone = Ok []
  /\ get_energies (FramesStr "full") (EdgeSeq [285]) (Some (FramesNum 0))
       RatiosNone = Raise ZeroDivisionError.
Proof.
  destruct (degenerate_edges (SpeedStr "normal") (FramesStr "full") 285)
    as [_ He].
  split.
  - destruct (He None 112) as [H _]; [reflexivity|].
    apply H. intros C. discriminate C.
  - destruct (He (Some (FramesNum 0)) 0) as [_ [H _]]; [reflexivity|].
    apply H. reflexivity.
Defined.

(** ** More on the exposure scheduler *)




Lemma construct_inv
    (dafault_warning_step_time : Q) (energies : energies_arg)
    (exposure_time : exposure_arg) (r : Z) (times : list Q) (time : Q)
    (warnings : list string) :
  construct_exposure_times dafault_warning_step_time energies exposure_time r
  = Ok (times, time, warnings) ->
  (1 <= r <= 100)%Z
  /\ exists a, energies = NdArray a /\ exposure_times a exposure_time = Ok times.
Proof.
  unfold construct_exposure_times. intros H.
  destruct ((1 >? r) || (100 <? r))%Z eqn:Hr; [discriminate H|].
  apply orb_false_iff in Hr. split; [lia|].
  destruct energies as [a|]; [|discriminate H]. exists a. split; [reflexivity|].
  destruct (exposure_times a exposure_time) as [times0|];
    cbn [bind] in H; [|discriminate H].
  inversion H; subst. reflexivity.
Qed.



Lemma apply_tests_app (energies : list Q) :
  forall (rules more : list (test * Q)) (times : list Q),
    apply_tests energies times (rules ++ more)
    = (times' <- apply_tests energies times rules ;;
       apply_tests energies times' more).
Proof.
  induction rules as [|[t v] rules IH]; intros more times;
    cbn [apply_tests app bind]; [reflexivity|].
  destruct (apply_test energies times t v); cbn [bind]; [apply IH|reflexivity].
Qed.

(** X13.  Rules compose: the exposures of a list of rules followed by
    more rules are those of the first rules with the further rules applied
    to them, and a list that fails keeps failing however it is
    extended. *)
Theorem rules_compose
    (energies : list Q) (default : Q) (rules more : list (test * Q)) :
  exposure_times energies (ExposureList default (rules ++ more))
  = (times <- exposure_times energies (ExposureList default rules) ;;
     apply_tests energies times more).
Proof. unfold exposure_times. apply apply_tests_app. Qed.

Lemma sum_times_mono (times : list Q) (r r' : Q) :
  Forall (fun t => 0 <= t) times ->
  r <= r' ->
  fold_right Qplus 0 (map (fun t => t * r) times)
  <= fold_right Qplus 0 (map (fun t => t * r') times).
Proof.
  intros Hpos Hr. induction Hpos as [|t times Ht _ IH];
    cbn [map fold_right]; [apply Qle_refl|].
  apply Qplus_le_compat; [|exact IH].
  rewrite (Qmult_comm t r), (Qmult_comm t r').
  apply Qmult_le_compat_r; assumption.
Qed.

(** X14.  More repeats never shorten a scan: with exposures that are not
    negative, the calls with [r <= r'] repeats return the same exposures
    and a duration that does not decrease, and a scan of [N] points with
    [r] repeats takes [(r + 3) * N] seconds at least. *)
Theorem time_grows_with_repeats
    (dafault_warning_step_time : Q) (energies : list Q)
    (exposure_time : exposure_arg) (r r' : Z) (times : list Q) (time : Q)
    (warnings : list string) :
  construct_exposure_times dafault_warning_step_time (NdArray energies)
    exposure_time r
  = Ok (times, time, warnings) ->
  Forall (fun t => 0 <= t) times ->
  (r <= r' <= 100)%Z ->
  inject_Z (r + 3) * inject_Z (Z.of_nat (List.length energies)) <= time
  /\ exists time' warnings',
      construct_exposure_times dafault_warning_step_time (NdArray energies)
        exposure_time r'
      = Ok (times, time', warnings')
      /\ time <= time'.
Proof.
  intros H Hpos Hr'.
  pose proof (construct_inv _ _ _ _ _ _ _ H) as [Hr [a [Ha Htimes]]].
  inversion Ha; subst a.
  destruct (total_time_of_times dafault_warning_step_time energies
              exposure_time r times Hr Htimes) as [t [Heq [Hlen Ht]]].
  rewrite Heq in H. inversion H; subst t. clear H.
  destruct (total_time_of_times dafault_warning_step_time energies
              exposure_time r' times) as [t' [Heq' [_ Ht']]];
    [lia | exact Htimes |].
  assert (Hn : 0 <= inject_Z (Z.of_nat (List.length times)))
    by (change 0 with (inject_Z 0); rewrite <- Zle_Qle; lia).
  assert (Hr0 : 0 <= inject_Z r)
    by (change 0 with (inject_Z 0); rewrite <- Zle_Qle; lia).
  assert (Hrr : inject_Z r <= inject_Z r') by (rewrite <- Zle_Qle; lia).
  pose proof (sum_times_mono times (inject_Z r) (inject_Z r') Hpos Hrr) as Hs.
  assert (Hs0 : 0 <= fold_right Qplus 0 (map (fun t => t * inject_Z r) times)).
  { apply sum_nonneg, Forall_forall. intros x Hx. apply in_map_iff in Hx.
    destruct Hx as [t [<- Hin]]. rewrite Forall_forall in Hpos.
    apply Qmult_le_0_compat; [apply Hpos; exact Hin | exact Hr0]. }
  unfold closed_form_time in Ht, Ht'.
  unfold Z.sub in Ht, Ht'. rewrite inject_Z_plus in Ht, Ht'.
  rewrite <- Hlen. rewrite inject_Z_plus.
  rewrite inject_Z_opp in Ht, Ht'.
  change (inject_Z 1) with 1 in *. change (inject_Z 3) with 3.
  set (n := inject_Z (Z.of_nat (List.length times))) in *.
  assert (Hmul : inject_Z r * n <= inject_Z r' * n)
    by (apply Qmult_le_compat_r; assumption).
  split.
  - rewrite Ht. lra.
  - exists t', (if Qltb dafault_warning_step_time t'
                then [step_warning] else []).
    split; [exact Heq'|]. rewrite Ht, Ht'. lra.
Qed.

Lemma time_grows_with_repeats_witness :
  inject_Z (1 + 3) * inject_Z (Z.of_nat (List.length [260; 285; 300]))
  <= 0 + (2 * 1 + inject_Z (1 * (1 - 1))) + (2 * 1 + inject_Z (1 * (1 - 1)))
       + (2 * 1 + inject_Z (1 * (1 - 1))) + inject_Z (4 * 3)
  /\ exists time' warnings',
      construct_exposure_times 1800 (NdArray [260; 285; 300]) (ExposureNum 2) 5
      = Ok ([2; 2; 2], time', warnings')
      /\ 0 + (2 * 1 + inject_Z (1 * (1 - 1))) + (2 * 1 + inject_Z (1 * (1 - 1)))
           + (2 * 1 + inject_Z (1 * (1 - 1))) + inject_Z (4 * 3)
         <= time'.
Proof.
  apply (time_grows_with_repeats 1800 [260; 285; 300] (ExposureNum 2) 1 5
           [2; 2; 2] _ []).
  - reflexivity.
  - repeat constructor; intros H; discriminate H.
  - lia.
Defined.

(** X15.  A test the scheduler cannot apply stops the call, and no
    exposure is returned: after rules that apply, a test of another name
    than the six known raises [ValueError], and a known test without a
    threshold raises [IndexError], whatever rules follow. *)
Theorem bad_test_raises
    (energies : list Q) (default : Q) (before after : list (test * Q))
    (t : test) (v : Q) (times : list Q) :
  exposure_times energies (ExposureList default before) = Ok times ->
  (known_name (test_name t) = false ->
   exposure_times energies (ExposureList default (before ++ (t, v) :: after))
   = Raise (ValueError msg_invalid_test))
  /\ (known_name (test_name t) = true ->
      test_args t = [] ->
      exposure_times energies (ExposureList default (before ++ (t, v) :: after))
      = Raise IndexError).
Proof.
  intros Hbefore. unfold exposure_times in *.
  rewrite apply_tests_app, Hbefore. cbn [bind apply_tests].
  unfold known_name, name_in. cbn [existsb].
  split.
  - intros Hname. repeat (apply orb_false_iff in Hname;
                          destruct Hname as [? Hname]).
    unfold apply_test, name_in. cbn [existsb].
    repeat match goal with H : String.eqb _ _ = false |- _ =>
      rewrite H; clear H end.
    reflexivity.
  - intros Hname Hargs. unfold apply_test, name_in. cbn [existsb].
    rewrite Hargs. revert Hname.
    repeat match goal with
    | |- context [String.eqb ?a ?b] => destruct (String.eqb a b)
    end;
    cbn; intros Hname; try reflexivity; discriminate Hname.
Qed.

Lemma bad_test_raises_witness :
  exposure_times [260; 285]
    (ExposureList 1 ([(Test "less_than" [270], 10)]
                     ++ [(Test "at_least" [280], 5)]))
  = Raise (ValueError msg_invalid_test)
  /\ exposure_times [260; 285]
       (ExposureList 1 ([(Test "less_than" [270], 10)]
                        ++ [(Test "between" [], 5)]))
     = Raise IndexError.
Proof.
  split.
  - destruct (bad_test_raises [260; 285] 1 [(Test "less_than" [270], 10)] []
                (Test "at_least" [280]) 5 [10; 1]) as [H _]; [reflexivity|].
    apply H. reflexivity.
  - destruct (bad_test_raises [260; 285] 1 [(Test "less_than" [270], 10)] []
                (Test "between" []) 5 [10; 1]) as [_ H]; [reflexivity|].
    apply H; reflexivity.
Defined.

(** * The proposal lookup of the spreadsheet import *)

Import Pass.

(** ** The proposal number *)

Lemma digit_not_class (c : ascii) :
  is_digit c = true -> in_class c = false /\ Ascii.eqb c "-" = false.
Proof.
  destruct c as [[] [] [] [] [] [] [] []]; cbn; intros H;
    try discriminate H; split; reflexivity.
Qed.

Lemma skip_class_prefix (prefix rest : string) :
  string_forall in_class prefix = true ->
  skip_class (prefix ++ rest) = skip_class rest.
Proof.
  induction prefix as [|c prefix IH]; cbn [string_forall append skip_class];
    [reflexivity|].
  intros H. apply andb_true_iff in H. destruct H as [Hc Hrest].
  rewrite Hc. apply IH. exact Hrest.
Qed.

Lemma take_all_digits (digits : string) :
  string_forall is_digit digits = true ->
  take_digits digits = (digits, EmptyString).
Proof.
  induction digits as [|c digits IH]; cbn [string_forall take_digits];
    [reflexivity|].
  intros H. apply andb_true_iff in H. destruct H as [Hc Hrest].
  rewrite Hc, (IH Hrest). reflexivity.
Qed.

Lemma proposal_number_digits (digits : string) :
  digits <> EmptyString ->
  string_forall is_digit digits = true ->
  proposal_number digits = Some digits
  /\ proposal_number (String "-" digits) = Some digits.
Proof.
  intros Hne Hdigits. unfold proposal_number.
  destruct digits as [|c digits]; [contradiction|].
  pose proof Hdigits as Hall. cbn [string_forall] in Hdigits.
  apply andb_true_iff in Hdigits. destruct Hdigits as [Hc _].
  destruct (digit_not_class c Hc) as [Hclass Hdash].
  cbn [skip_class]. change (in_class "-") with false.
  rewrite Hclass. cbn [skip_dash]. change (Ascii.eqb "-" "-") with true.
  rewrite Hdash, (take_all_digits _ Hall). split; reflexivity.
Qed.

Lemma proposal_number_prefixed (prefix digits : string) :
  string_forall in_class prefix = true ->
  digits <> EmptyString ->
  string_forall is_digit digits = true ->
  proposal_number (prefix ++ digits) = Some digits
  /\ proposal_number (prefix ++ String "-" digits) = Some digits.
Proof.
  intros Hprefix Hne Hdigits.
  destruct (proposal_number_digits digits Hne Hdigits) as [H1 H2].
  unfold proposal_number in *.
  rewrite !skip_class_prefix by exact Hprefix. split; assumption.
Qed.

Lemma take_digits_none (s : string) :
  string_forall (fun c => negb (is_digit c)) s = true ->
  fst (take_digits s) = EmptyString.
Proof.
  destruct s as [|c s]; cbn [string_forall take_digits]; [reflexivity|].
  intros H. apply andb_true_iff in H. destruct H as [Hc _].
  apply negb_true_iff in Hc. rewrite Hc. reflexivity.
Qed.

Lemma string_forall_suffix (p : ascii -> bool) (s : string) :
  string_forall p s = true ->
  string_forall p (skip_class s) = true
  /\ string_forall p (skip_dash s) = true.
Proof.
  induction s as [|c s IH]; cbn [string_forall skip_class skip_dash];
    [split; reflexivity|].
  intros H. pose proof H as Hall.
  apply andb_true_iff in H. destruct H as [Hc Hs]. split.
  - destruct (in_class c); [apply IH; exact Hs | exact Hall].
  - destruct (Ascii.eqb c "-"); [exact Hs | exact Hall].
Qed.

(** X16.  A proposal is named by its number, with or without letters of
    the pattern and a dash before it: [GU-312345], [pass-312345] and
    [312345] ask the service about the same proposal and give the same
    result.  A string without a digit matches nothing, and the call
    raises [AttributeError] before any request is made. *)
Theorem proposal_prefix_ignored
    (server : string -> json) (prefix digits : string)
    (beamline path_base cycle : option string) :
  (string_forall in_class prefix = true ->
   digits <> EmptyString ->
   string_forall is_digit digits = true ->
   get_proposal_info server (ProposalStr (prefix ++ String "-" digits))
     beamline path_base cycle
   = get_proposal_info server (ProposalStr digits) beamline path_base cycle
   /\ get_proposal_info server (ProposalStr (prefix ++ digits))
        beamline path_base cycle
      = get_proposal_info server (ProposalStr digits) beamline path_base cycle)
  /\ (forall s,
         string_forall (fun c => negb (is_digit c)) s = true ->
         get_proposal_info server (ProposalStr s) beamline path_base cycle
         = Throw AttributeError).
Proof.
  split.
  - intros Hprefix Hne Hdigits.
    destruct (proposal_number_prefixed prefix digits Hprefix Hne Hdigits)
      as [H1 H2].
    destruct (proposal_number_digits digits Hne Hdigits) as [H0 _].
    unfold get_proposal_info, proposal_of. rewrite H0, H1, H2.
    split; reflexivity.
  - intros s Hs. unfold get_proposal_info, proposal_of, proposal_number.
    destruct (string_forall_suffix _ s Hs) as [H1 _].
    destruct (string_forall_suffix _ _ H1) as [_ H2].
    pose proof (take_digits_none _ H2) as Hnone.
    destruct (take_digits (skip_dash (skip_class s))) as [found rest].
    cbn [fst] in Hnone. subst found. reflexivity.
Qed.

Lemma proposal_prefix_ignored_witness :
  get_proposal_info example_server (ProposalStr "pass-312345") None None None
  = get_proposal_info example_server (ProposalStr "312345") None None None
  /\ get_proposal_info example_server (ProposalStr "GU-") None None None
     = Throw AttributeError.
Proof.
  destruct (proposal_prefix_ignored example_server "pass" "312345"
              None None None) as [Hsame Hnone].
  split.
  - apply Hsame; [reflexivity | discriminate | reflexivity].
  - apply Hnone. reflexivity.
Defined.

Lemma string_of_uint_digits (d : Decimal.uint) :
  string_forall is_digit (NilEmpty.string_of_uint d) = true.
Proof. induction d; cbn; try rewrite IHd; reflexivity. Qed.

Lemma str_of_Z_digits (n : Z) :
  (0 <= n)%Z ->
  str_of_Z n <> EmptyString /\ string_forall is_digit (str_of_Z n) = true.
Proof.
  intros Hn. unfold str_of_Z.
  destruct n as [|p|p]; [split; [discriminate | reflexivity] | | lia].
  cbn [Z.to_int NilZero.string_of_int].
  pose proof (string_of_uint_digits (Pos.to_uint p)) as Hd.
  unfold NilZero.string_of_uint.
  destruct (Pos.to_uint p); (split; [discriminate | try exact Hd; reflexivity]).
Qed.

(** X17.  An integer that is not negative names the proposal its decimal
    digits name: the call on the integer and the call on the string of
    its digits give the same result. *)
Theorem proposal_integer_as_string
    (server : string -> json) (n : Z)
    (beamline path_base cycle : option string) :
  (0 <= n)%Z ->
  get_proposal_info server (ProposalInt n) beamline path_base cycle
  = get_proposal_info server (ProposalStr (str_of_Z n))
      beamline path_base cycle.
Proof.
  intros Hn. destruct (str_of_Z_digits n Hn) as [Hne Hdigits].
  destruct (proposal_number_digits _ Hne Hdigits) as [H _].
  unfold get_proposal_info, proposal_of. rewrite H. reflexivity.
Qed.

Lemma proposal_integer_as_string_witness :
  get_proposal_info example_server (ProposalInt 312345) None None None
  = get_proposal_info example_server (ProposalStr "312345") None None None.
Proof.
  apply (proposal_integer_as_string example_server 312345 None None None).
  lia.
Defined.

(** ** What the lookup returns *)

Lemma saf_loop_inv (beamline : string) :
  forall (safs : list json) (start found : json),
    saf_loop beamline safs start = Return found ->
    found = start
    \/ exists saf, In saf safs /\ approved_saf beamline saf found.
Proof.
  induction safs as [|saf safs IH]; intros start found H; cbn [saf_loop] in H.
  - inversion H. left. reflexivity.
  - destruct (getitem saf "status") as [status|] eqn:Hst;
      cbn [and_then] in H; [|discriminate H].
    assert (Hlater : forall v,
      saf_loop beamline safs v = Return found ->
      found = v \/ exists s, In s (saf :: safs) /\ approved_saf beamline s found).
    { intros v Hv. destruct (IH _ _ Hv) as [->|[s [Hs Ha]]];
        [left; reflexivity | right; exists s; split; [right|]; assumption]. }
    destruct (is_str "APPROVED" status) eqn:Happ; [|apply Hlater; exact H].
    destruct (getitem saf "instruments") as [instruments|] eqn:Hin;
      cbn [and_then] in H; [|discriminate H].
    destruct (str_in beamline instruments) as [here|] eqn:Hhere;
      cbn [and_then] in H; [|discriminate H].
    destruct here; [|apply Hlater; exact H].
    destruct (getitem saf "saf_id") as [saf_id|] eqn:Hid;
      cbn [and_then] in H; [|discriminate H].
    destruct (Hlater _ H) as [->|Hex]; [|right; exact Hex].
    right. exists saf. split; [left; reflexivity|].
    exists status, instruments. repeat split; assumption.
Qed.

Lemma dir_loop_inv (comissioning : bool) (path_base cycle : string) :
  forall (dirs : list json) (start found : json),
    dir_loop comissioning path_base cycle dirs start = Return found ->
    found = start
    \/ exists dir,
        In dir dirs /\ valid_dir comissioning path_base cycle dir found.
Proof.
  induction dirs as [|dir dirs IH]; intros start found H; cbn [dir_loop] in H.
  - inversion H. left. reflexivity.
  - destruct (getitem dir "path") as [path|] eqn:Hpath;
      cbn [and_then] in H; [|discriminate H].
    destruct (str_in path_base path) as [based|] eqn:Hbased;
      cbn [and_then] in H; [|discriminate H].
    assert (Hlater : forall v,
      dir_loop comissioning path_base cycle dirs v = Return found ->
      found = v
      \/ exists d, In d (dir :: dirs)
                   /\ valid_dir comissioning path_base cycle d found).
    { intros v Hv. destruct (IH _ _ Hv) as [->|[d [Hd Hv']]];
        [left; reflexivity | right; exists d; split; [right|]; assumption]. }
    assert (Hthis : based = true ->
      (comissioning = false -> str_in cycle path = Return true) ->
      exists d, In d (dir :: dirs)
                /\ valid_dir comissioning path_base cycle d path).
    { intros -> Hc. exists dir. split; [left; reflexivity|].
      repeat split; assumption. }
    destruct comissioning.
    + destruct (Hlater _ H) as [->|Hex]; [|right; exact Hex].
      destruct based; [right; apply Hthis; [reflexivity | discriminate]
                      |left; reflexivity].
    + destruct based; [|apply Hlater; exact H].
      destruct (str_in cycle path) as [cycled|] eqn:Hcy;
        cbn [and_then] in H; [|discriminate H].
      destruct (Hlater _ H) as [->|Hex]; [|right; exact Hex].
      destruct cycled; [right; apply Hthis; [reflexivity | intros _; reflexivity]
                       |left; reflexivity].
Qed.

Lemma saf_and_path_inv (server : string -> json) (proposal : string)
    (res : json) (comissioning : bool) (beamline path_base cycle : string)
    (r : returned) (ws : list warning) :
  saf_and_path server proposal res comissioning beamline path_base cycle
  = Return (r, ws) ->
  (r = none4 /\ List.length ws = 1%nat)
  \/ exists data_session path saf,
      r = Four data_session path saf res
      /\ ws = []
      /\ getitem res "data_session" = Return data_session
      /\ (exists n, py_len path = Return (S n))
      /\ (exists n, py_len saf = Return (S n))
      /\ (exists safs items s,
             getitem res "safs" = Return safs
             /\ py_iter safs = Return items
             /\ In s items /\ approved_saf beamline s saf)
      /\ (exists dirs d,
             py_iter (server ("/proposal/" ++ proposal ++ "/directories")%string)
             = Return dirs
             /\ In d dirs
             /\ valid_dir comissioning path_base cycle d path).
Proof.
  unfold saf_and_path. intros H.
  destruct (getitem res "safs") as [safs|] eqn:Hsafs;
    cbn [and_then] in H; [|discriminate H].
  destruct (py_len safs) as [n0|]; cbn [and_then] in H; [|discriminate H].
  destruct (py_iter safs) as [items|] eqn:Hitems;
    cbn [and_then] in H; [|discriminate H].
  destruct (saf_loop beamline items (JStr "")) as [saf|] eqn:Hloop;
    cbn [and_then] in H; [|discriminate H].
  destruct (py_len saf) as [n1|] eqn:Hn1; cbn [and_then] in H;
    [|discriminate H].
  destruct n1 as [|n1]; cbn [Nat.eqb] in H;
    [inversion H; left; split; reflexivity|].
  destruct (py_len (server _)) as [n2|]; cbn [and_then] in H;
    [|discriminate H].
  destruct (n2 <? 1)%nat; [inversion H; left; split; reflexivity|].
  destruct (py_iter (server _)) as [dirs|] eqn:Hdirs;
    cbn [and_then] in H; [|discriminate H].
  destruct (dir_loop comissioning path_base cycle dirs (JStr ""))
    as [path|] eqn:Hdloop; cbn [and_then] in H; [|discriminate H].
  destruct (py_len path) as [n3|] eqn:Hn3; cbn [and_then] in H;
    [|discriminate H].
  destruct n3 as [|n3]; cbn [Nat.eqb] in H;
    [inversion H; left; split; reflexivity|].
  destruct (getitem res "data_session") as [ds|] eqn:Hds;
    cbn [and_then] in H; [|discriminate H].
  inversion H; subst r ws. right.
  exists ds, path, saf. repeat split; try reflexivity.
  - exists n3. exact Hn3.
  - exists n1. exact Hn1.
  - destruct (saf_loop_inv _ _ _ _ Hloop) as [->|[s [Hs Ha]]];
      [discriminate Hn1|].
    exists safs, items, s. repeat split; assumption.
  - destruct (dir_loop_inv _ _ _ _ _ _ Hdloop) as [->|[d [Hd Hv]]];
      [discriminate Hn3|].
    exists dirs, d. repeat split; try assumption; apply Hv.
Qed.

(** X18.  The lookup never returns a half-filled answer: it returns four
    times [None] with one warning, or the lone -1 with the warning of a
    proposal without cycle, or, without any warning, a tuple whose path
    and approval id are not empty and whose last part is the answer of
    the service. *)
Theorem proposal_info_shape
    (server : string -> json) (proposal_id : proposal_arg)
    (beamline path_base cycle : option string)
    (r : returned) (ws : list warning) :
  get_proposal_info server proposal_id beamline path_base cycle
  = Return (r, ws) ->
  (r = none4 /\ List.length ws = 1%nat)
  \/ (r = MinusOne /\ ws = [NoCycleNotCommissioning])
  \/ exists proposal data_session path saf,
      proposal_of proposal_id = Return proposal
      /\ r = Four data_session path saf (server ("/proposal/" ++ proposal)%string)
      /\ ws = []
      /\ (exists n, py_len path = Return (S n))
      /\ (exists n, py_len saf = Return (S n)).
Proof.
  unfold get_proposal_info. intros H.
  destruct (proposal_of proposal_id) as [proposal|] eqn:Hp;
    cbn [and_then] in H; [|discriminate H].
  set (res := server ("/proposal/" ++ proposal)%string) in *.
  assert (Hstage : forall com b p c,
    saf_and_path server proposal res com b p c = Return (r, ws) ->
    (r = none4 /\ List.length ws = 1%nat)
    \/ (r = MinusOne /\ ws = [NoCycleNotCommissioning])
    \/ exists proposal0 data_session path saf,
        Return proposal = Return proposal0
        /\ r = Four data_session path saf
                 (server ("/proposal/" ++ proposal0)%string)
        /\ ws = []
        /\ (exists n, py_len path = Return (S n))
        /\ (exists n, py_len saf = Return (S n))).
  { intros com b p c Hs. apply saf_and_path_inv in Hs.
    destruct Hs as [Hnone|[ds [path [saf [Hr [Hw [_ [Hlp [Hls _]]]]]]]]];
      [left; exact Hnone|].
    right. right. exists proposal, ds, path, saf.
    repeat split; assumption. }
  destruct (str_in "safs" res) as [has_safs|]; cbn [and_then] in H;
    [|discriminate H].
  destruct has_safs; cbn [negb] in H;
    [|inversion H; left; split; reflexivity].
  destruct (str_in "cycles" res) as [has_cycles|]; cbn [and_then] in H;
    [|discriminate H].
  destruct has_cycles.
  - destruct (getitem res "cycles") as [cycles|]; cbn [and_then] in H;
      [|discriminate H].
    destruct (str_in _ cycles) as [valid|]; cbn [and_then] in H;
      [|discriminate H].
    destruct valid; cbn [negb] in H;
      [|inversion H; left; split; reflexivity].
    exact (Hstage _ _ _ _ H).
  - destruct (getitem res "type") as [type|]; cbn [and_then] in H;
      [|discriminate H].
    destruct (str_in "Commissioning" type) as [com|]; cbn [and_then] in H;
      [|discriminate H].
    destruct com; cbn [negb] in H;
      [|inversion H; right; left; split; reflexivity].
    exact (Hstage _ _ _ _ H).
Qed.

Lemma proposal_info_shape_witness :
  (none4 = none4 /\ List.length [NoSafForBeamline] = 1%nat)
  \/ (none4 = MinusOne /\ [NoSafForBeamline] = [NoCycleNotCommissioning])
  \/ exists proposal data_session path saf,
      proposal_of (ProposalStr "GU-312345") = Return proposal
      /\ none4 = Four data_session path saf
                   (example_server ("/proposal/" ++ proposal)%string)
      /\ [NoSafForBeamline] = []
      /\ (exists n, py_len path = Return (S n))
      /\ (exists n, py_len saf = Return (S n)).
Proof.
  apply (proposal_info_shape example_server (ProposalStr "GU-312345")
           (Some "CSX"%string) None None).
  reflexivity.
Defined.

(** X19.  What a successful lookup returns comes from the service: the
    session is the [data_session] of the proposal, the approval id is the
    [saf_id] of an approved form of the beamline, the path is the [path]
    of a directory that contains the base and, for a proposal with
    cycles, the cycle, which is one of the proposal's cycles; a proposal
    without cycles is a commissioning one. *)
Theorem proposal_info_provenance
    (server : string -> json) (proposal_id : proposal_arg)
    (beamline path_base cycle : option string)
    (data_session path saf info : json) :
  get_proposal_info server proposal_id beamline path_base cycle
  = Return (Four data_session path saf info, []) ->
  exists proposal comissioning,
    proposal_of proposal_id = Return proposal
    /\ info = server ("/proposal/" ++ proposal)%string
    /\ getitem info "data_session" = Return data_session
    /\ (exists safs items s,
           getitem info "safs" = Return safs
           /\ py_iter safs = Return items
           /\ In s items
           /\ approved_saf (or_default beamline "SST1"%string) s saf)
    /\ (exists dirs d,
           py_iter (server ("/proposal/" ++ proposal ++ "/directories")%string)
           = Return dirs
           /\ In d dirs
           /\ valid_dir comissioning (or_default path_base "/sst/"%string)
                (or_default cycle "2023-1"%string) d path)
    /\ str_in "cycles" info = Return (negb comissioning)
    /\ (if comissioning
        then exists type,
               getitem info "type" = Return type
               /\ str_in "Commissioning" type = Return true
        else exists cycles,
               getitem info "cycles" = Return cycles
               /\ str_in (or_default cycle "2023-1"%string) cycles
                  = Return true).
Proof.
  unfold get_proposal_info. intros H.
  destruct (proposal_of proposal_id) as [proposal|] eqn:Hp;
    cbn [and_then] in H; [|discriminate H].
  set (res := server ("/proposal/" ++ proposal)%string) in *.
  assert (Hstage : forall com,
    saf_and_path server proposal res com (or_default beamline "SST1"%string)
      (or_default path_base "/sst/"%string) (or_default cycle "2023-1"%string)
    = Return (Four data_session path saf info, []) ->
    info = res
    /\ getitem info "data_session" = Return data_session
    /\ (exists safs items s,
           getitem info "safs" = Return safs
           /\ py_iter safs = Return items
           /\ In s items
           /\ approved_saf (or_default beamline "SST1"%string) s saf)
    /\ (exists dirs d,
           py_iter (server ("/proposal/" ++ proposal ++ "/directories")%string)
           = Return dirs
           /\ In d dirs
           /\ valid_dir com (or_default path_base "/sst/"%string)
                (or_default cycle "2023-1"%string) d path)).
  { intros com Hs. apply saf_and_path_inv in Hs.
    destruct Hs as [[_ Hlen]|[ds [p [s [Hr [_ [Hds [_ [_ [Hsaf Hdir]]]]]]]]]];
      [discriminate Hlen|].
    inversion Hr; subst ds p s info.
    repeat split; assumption. }
  destruct (str_in "safs" res) as [has_safs|]; cbn [and_then] in H;
    [|discriminate H].
  destruct has_safs; cbn [negb] in H; [|discriminate H].
  destruct (str_in "cycles" res) as [has_cycles|] eqn:Hcycles;
    cbn [and_then] in H; [|discriminate H].
  destruct has_cycles.
  - destruct (getitem res "cycles") as [cycles|] eqn:Hget;
      cbn [and_then] in H; [|discriminate H].
    destruct (str_in _ cycles) as [valid|] eqn:Hvalid; cbn [and_then] in H;
      [|discriminate H].
    destruct valid; cbn [negb] in H; [|discriminate H].
    destruct (Hstage _ H) as [Hi [Hds [Hsaf Hdir]]].
    exists proposal, false. subst info.
    repeat split; try assumption.
    exists cycles. split; assumption.
  - destruct (getitem res "type") as [type|] eqn:Hget;
      cbn [and_then] in H; [|discriminate H].
    destruct (str_in "Commissioning" type) as [com|] eqn:Hcom;
      cbn [and_then] in H; [|discriminate H].
    destruct com; cbn [negb] in H; [|discriminate H].
    destruct (Hstage _ H) as [Hi [Hds [Hsaf Hdir]]].
    exists proposal, true. subst info.
    repeat split; try assumption.
    exists type. split; assumption.
Qed.

Lemma proposal_info_provenance_witness :
  exists proposal comissioning,
    proposal_of (ProposalStr "pass-312345") = Return proposal
    /\ example_server "/proposal/312345"
       = example_server ("/proposal/" ++ proposal)%string
    /\ getitem (example_server "/proposal/312345") "data_session"
       = Return (JStr "pass-312345")
    /\ (exists safs items s,
           getitem (example_server "/proposal/312345") "safs" = Return safs
           /\ py_iter safs = Return items
           /\ In s items
           /\ approved_saf "SST1" s (JStr "309000"))
    /\ (exists dirs d,
           py_iter (example_server
                      ("/proposal/" ++ proposal ++ "/directories")%string)
           = Return dirs
           /\ In d dirs
           /\ valid_dir comissioning "/sst/" "2023-1" d
                (JStr "/nsls2/data/sst/proposals/2023-1/pass-312345"))
    /\ str_in "cycles" (example_server "/proposal/312345")
       = Return (negb comissioning)
    /\ (if comissioning
        then exists type,
               getitem (example_server "/proposal/312345") "type" = Return type
               /\ str_in "Commissioning" type = Return true
        else exists cycles,
               getitem (example_server "/proposal/312345") "cycles"
               = Return cycles
               /\ str_in "2023-1" cycles = Return true).
Proof.
  apply (proposal_info_provenance example_server (ProposalStr "pass-312345")
           None None None).
  reflexivity.
Defined.

(** X20.  A proposal that has approval forms, no cycles and a type without
    the word Commissioning makes the lookup return the lone integer -1,
    whatever the beamline, path and cycle; the assignment of line 349 to
    four targets then raises [TypeError]. *)
Theorem no_cycle_not_commissioning
    (server : string -> json) (proposal_id : proposal_arg)
    (proposal : string) (type : json) :
  proposal_of proposal_id = Return proposal ->
  str_in "safs" (server ("/proposal/" ++ proposal)%string) = Return true ->
  str_in "cycles" (server ("/proposal/" ++ proposal)%string) = Return false ->
  getitem (server ("/proposal/" ++ proposal)%string) "type" = Return type ->
  str_in "Commissioning" type = Return false ->
  (forall beamline path_base cycle,
      get_proposal_info server proposal_id beamline path_base cycle
      = Return (MinusOne, [NoCycleNotCommissioning]))
  /\ proposal_fields server proposal_id = Throw TypeErr.
Proof.
  intros Hp Hsafs Hcycles Htype Hcom.
  assert (H : forall beamline path_base cycle,
    get_proposal_info server proposal_id beamline path_base cycle
    = Return (MinusOne, [NoCycleNotCommissioning])).
  { intros beamline path_base cycle. unfold get_proposal_info.
    rewrite Hp. cbn [and_then]. rewrite Hsafs. cbn [and_then negb].
    rewrite Hcycles. cbn [and_then]. rewrite Htype. cbn [and_then].
    rewrite Hcom. reflexivity. }
  split; [exact H|].
  unfold proposal_fields. rewrite H. reflexivity.
Qed.

Lemma no_cycle_not_commissioning_witness :
  (forall beamline path_base cycle,
      get_proposal_info example_server (ProposalInt 400001)
        beamline path_base cycle
      = Return (MinusOne, [NoCycleNotCommissioning]))
  /\ proposal_fields example_server (ProposalInt 400001) = Throw TypeErr.
Proof.
  apply (no_cycle_not_commissioning example_server (ProposalInt 400001)
           "400001" (JStr "Beamline Discretionary Time"));
    reflexivity.
Defined.

Lemma saf_loop_app (beamline : string) :
  forall (before after : list json) (start : json),
    saf_loop beamline (before ++ after) start
    = (found <~ saf_loop beamline before start ;;
       saf_loop beamline after found).
Proof.
  induction before as [|saf before IH]; intros after start;
    cbn [saf_loop app and_then]; [reflexivity|].
  destruct (getitem saf "status") as [status|]; cbn [and_then];
    [|reflexivity].
  destruct (is_str "APPROVED" status); [|apply IH].
  destruct (getitem saf "instruments") as [instruments|]; cbn [and_then];
    [|reflexivity].
  destruct (str_in beamline instruments) as [here|]; cbn [and_then];
    [|reflexivity].
  destruct here; [|apply IH].
  destruct (getitem saf "saf_id") as [saf_id|]; cbn [and_then];
    [apply IH | reflexivity].
Qed.

Lemma saf_loop_passed_over (beamline : string) :
  forall (safs : list json) (start : json),
    (forall s, In s safs -> passed_over beamline s) ->
    saf_loop beamline safs start = Return start.
Proof.
  induction safs as [|saf safs IH]; intros start Hall; cbn [saf_loop];
    [reflexivity|].
  assert (Hrest : saf_loop beamline safs start = Return start).
  { apply IH. intros s Hs. apply Hall. right. exact Hs. }
  destruct (Hall saf (or_introl eq_refl)) as [status [Hst Hwhy]].
  rewrite Hst. cbn [and_then].
  destruct Hwhy as [Hno|[instruments [Hin Hnot]]].
  - rewrite Hno. exact Hrest.
  - destruct (is_str "APPROVED" status); [|exact Hrest].
    rewrite Hin. cbn [and_then]. rewrite Hnot. cbn [and_then]. exact Hrest.
Qed.

(** X21.  Of several approved forms of the beamline the last one counts:
    when the forms before one approved form are read without an error
    and the forms after it are passed over, the loop of lines 416 to 419
    ends with the id of that form. *)
Theorem last_approved_saf_wins
    (beamline : string) (before after : list json) (saf start saf_id : json) :
  (exists found, saf_loop beamline before start = Return found) ->
  approved_saf beamline saf saf_id ->
  (forall s, In s after -> passed_over beamline s) ->
  saf_loop beamline (before ++ saf :: after) start = Return saf_id.
Proof.
  intros [found Hbefore] [status [instruments [Hst [Happ [Hin [Hhere Hid]]]]]]
    Hafter.
  rewrite saf_loop_app, Hbefore. cbn [and_then saf_loop].
  rewrite Hst. cbn [and_then]. rewrite Happ, Hin. cbn [and_then].
  rewrite Hhere. cbn [and_then]. rewrite Hid. cbn [and_then].
  apply saf_loop_passed_over. exact Hafter.
Qed.

Lemma last_approved_saf_wins_witness :
  saf_loop "SST1"
    ([ JObj [ ("saf_id", JStr "308000"); ("status", JStr "APPROVED");
              ("instruments", JList [JStr "SST1"]) ] ]%string
     ++ JObj [ ("saf_id", JStr "309000"); ("status", JStr "APPROVED");
               ("instruments", JList [JStr "SST1"; JStr "SST2"]) ]%string
     :: [ JObj [ ("saf_id", JStr "309001"); ("status", JStr "PENDING") ];
          JObj [ ("saf_id", JStr "309002"); ("status", JStr "APPROVED");
                 ("instruments", JList [JStr "SST2"]) ] ]%string)%list
    (JStr "")
  = Return (JStr "309000").
Proof.
  apply last_approved_saf_wins.
  - exists (JStr "308000"). reflexivity.
  - exists (JStr "APPROVED"), (JList [JStr "SST1"; JStr "SST2"]).
    repeat split; reflexivity.
  - intros s [<-|[<-|[]]].
    + exists (JStr "PENDING"). split; [reflexivity | left; reflexivity].
    + exists (JStr "APPROVED"). split; [reflexivity|].
      right. exists (JList [JStr "SST2"]). split; reflexivity.
Defined.

(** * The text of the wiki tables *)

Import Wiki.

Lemma str_app_assoc (a b c : string) :
  ((a ++ b) ++ c = a ++ (b ++ c))%string.
Proof. induction a as [|x a IH]; cbn; [reflexivity | rewrite IH; reflexivity]. Qed.

Lemma str_app_nil_r (a : string) : (a ++ "" = a)%string.
Proof. induction a as [|x a IH]; cbn; [reflexivity | rewrite IH; reflexivity]. Qed.

Lemma str_length_app (a b : string) :
  String.length (a ++ b) = (String.length a + String.length b)%nat.
Proof. induction a as [|x a IH]; cbn; [reflexivity | rewrite IH; reflexivity]. Qed.

Lemma substring_app_left (a b : string) :
  substring 0 (String.length a) (a ++ b) = a.
Proof.
  induction a as [|x a IH]; cbn; [destruct b; reflexivity|].
  rewrite IH. reflexivity.
Qed.

Lemma drop_last_app (n : nat) (a b : string) :
  String.length b = n -> drop_last n (a ++ b) = a.
Proof.
  intros <-. unfold drop_last. rewrite str_length_app.
  replace (String.length a + String.length b - String.length b)%nat
    with (String.length a) by lia.
  apply substring_app_left.
Qed.

Lemma concat_empty_cons (x : string) (xs : list string) :
  String.concat "" (x :: xs) = (x ++ String.concat "" xs)%string.
Proof.
  destruct xs; cbn [String.concat]; [rewrite str_app_nil_r|]; reflexivity.
Qed.

Lemma add_cells_join (sep : string) :
  forall (cells : list string) (outStr : string),
    cells <> [] ->
    add_cells sep outStr cells
    = ((outStr ++ String.concat sep (map filtered cells)) ++ sep)%string.
Proof.
  unfold add_cells.
  induction cells as [|cell cells IH]; intros outStr Hne; [contradiction|].
  destruct cells as [|cell' cells].
  - cbn [fold_left map String.concat]. rewrite str_app_assoc. reflexivity.
  - change (fold_left _ (cell :: cell' :: cells) outStr)
      with (fold_left
              (fun outStr cell => outStr ++ (filtered cell ++ sep))%string
              (cell' :: cells) (outStr ++ (filtered cell ++ sep))%string).
    rewrite IH by discriminate.
    cbn [map String.concat]. rewrite !str_app_assoc. reflexivity.
Qed.

Lemma add_row_join (outStr : string) (row : list string) :
  row <> [] -> add_row outStr row = (outStr ++ row_text row)%string.
Proof.
  intros Hne. unfold add_row, row_text.
  rewrite add_cells_join by exact Hne.
  rewrite drop_last_app by reflexivity.
  rewrite !str_app_assoc. reflexivity.
Qed.

Lemma add_rows_join :
  forall (lines : list (list string)) (outStr : string),
    (forall row, In row lines -> row <> []) ->
    fold_left add_row lines outStr
    = (outStr ++ String.concat "" (map row_text lines))%string.
Proof.
  induction lines as [|row lines IH]; intros outStr Hne.
  - cbn. rewrite str_app_nil_r. reflexivity.
  - cbn [fold_left]. rewrite add_row_join by (apply Hne; left; reflexivity).
    rewrite IH by (intros r Hr; apply Hne; right; exact Hr).
    cbn [map]. rewrite concat_empty_cons, str_app_assoc. reflexivity.
Qed.

Lemma add_table_join (outStr : string) (f : frame) :
  has_cells f -> add_table outStr f = (outStr ++ table_text f)%string.
Proof.
  intros [Hcols Hrows]. unfold add_table, table_text.
  rewrite add_cells_join by exact Hcols.
  rewrite drop_last_app by reflexivity.
  rewrite add_rows_join by exact Hrows.
  rewrite !str_app_assoc. reflexivity.
Qed.

(** X22.  When every frame has a column and every row a cell, the text of
    the wiki page is the page header followed, frame by frame, by the
    table opening, the column headers joined by [ !! ], one line per row
    with its cells joined by [ || ], and the table end: cutting four
    characters after each loop removes the separator after the last
    header or cell and nothing else. *)
Theorem wiki_text_joined (versionStr today : string) (frames : list frame) :
  (forall f, In f frames -> has_cells f) ->
  wiki_text versionStr today frames
  = (page_header versionStr today
     ++ String.concat "" (map table_text frames))%string.
Proof.
  unfold wiki_text. generalize (page_header versionStr today).
  induction frames as [|f frames IH]; intros outStr Hall.
  - cbn. rewrite str_app_nil_r. reflexivity.
  - cbn [fold_left]. rewrite add_table_join by (apply Hall; left; reflexivity).
    rewrite IH by (intros g Hg; apply Hall; right; exact Hg).
    cbn [map]. rewrite concat_empty_cons, str_app_assoc. reflexivity.
Qed.

Lemma wiki_text_joined_witness :
  wiki_text "2.1" "2023-03-01" [example_frame]
  = (page_header "2.1" "2023-03-01"
     ++ String.concat "" (map table_text [example_frame]))%string.
Proof.
  apply (wiki_text_joined "2.1" "2023-03-01" [example_frame]).
  intros f [<-|[]]. split; [discriminate|].
  intros row [<-|[<-|[]]]; discriminate.
Defined.

Lemma count_char_app (c : ascii) (a b : string) :
  count_char c (a ++ b) = (count_char c a + count_char c b)%nat.
Proof. induction a as [|x a IH]; cbn; [reflexivity | rewrite IH; lia]. Qed.

Lemma count_replaced (old new : ascii) (s : string) :
  Ascii.eqb new old = false ->
  count_char old (replace_char old new s) = 0%nat.
Proof.
  intros Hnew. induction s as [|c s IH]; cbn; [reflexivity|].
  rewrite IH. destruct (Ascii.eqb c old) eqn:Hc; [rewrite Hnew | rewrite Hc];
    reflexivity.
Qed.

Lemma count_filtered (s : string) : count_char line_feed (filtered s) = 0%nat.
Proof. apply count_replaced. reflexivity. Qed.

Lemma count_joined (sep : string) (cells : list string) :
  count_char line_feed sep = 0%nat ->
  count_char line_feed (String.concat sep (map filtered cells)) = 0%nat.
Proof.
  intros Hsep. induction cells as [|cell cells IH]; [reflexivity|].
  destruct cells as [|cell' cells]; cbn [map String.concat].
  - apply count_filtered.
  - rewrite !count_char_app, count_filtered, Hsep. exact IH.
Qed.

Lemma count_row_text (row : list string) :
  count_char line_feed (row_text row) = 2%nat.
Proof.
  unfold row_text. rewrite !count_char_app.
  rewrite count_joined by reflexivity. reflexivity.
Qed.

Lemma count_rows_text (lines : list (list string)) :
  count_char line_feed (String.concat "" (map row_text lines))
  = (2 * List.length lines)%nat.
Proof.
  induction lines as [|row lines IH]; [reflexivity|].
  cbn [map]. rewrite concat_empty_cons, count_char_app, count_row_text, IH.
  cbn [List.length]. lia.
Qed.

(** X23.  A line feed inside a header or a cell never breaks a table: a
    frame with a column and a cell in every row adds exactly five line
    feeds and two more for each of its rows to the text, whatever its
    cells hold. *)
Theorem table_lines (outStr : string) (f : frame) :
  has_cells f ->
  count_char line_feed (add_table outStr f)
  = (count_char line_feed outStr + 5 + 2 * List.length (rows f))%nat.
Proof.
  intros Hf. rewrite add_table_join by exact Hf.
  unfold table_text. rewrite !count_char_app.
  rewrite count_joined by reflexivity.
  rewrite count_rows_text.
  change (count_char line_feed nl) with 1%nat.
  change (count_char line_feed "{| class=") with 0%nat.
  change (count_char line_feed quote) with 0%nat.
  change (count_char line_feed "wikitable sortable") with 0%nat.
  change (count_char line_feed "|-") with 0%nat.
  change (count_char line_feed "! ") with 0%nat.
  change (count_char line_feed "|}") with 0%nat.
  lia.
Qed.

Lemma table_lines_witness :
  count_char line_feed (add_table (page_header "2.1" "2023-03-01") example_frame)
  = (count_char line_feed (page_header "2.1" "2023-03-01") + 5
     + 2 * List.length (rows example_frame))%nat.
Proof.
  apply (table_lines (page_header "2.1" "2023-03-01") example_frame).
  split; [discriminate|].
  intros row [<-|[<-|[]]]; discriminate.
Defined.

